(** * biaffineparser: the CoNLL-U record model, reader, writer and scoring

    A shallow embedding of [src/utils/conllu.py] and of the evaluation loop
    of [pytorch/parser.py] ([test]), with the properties stated about them.

    Python values are a small tagged union, tokens are dictionaries
    ([gmap string PyVal]), a generator is the trace it produces (the values
    yielded, in order, and the exception that ended it, if any), and an
    exception is a value of [exn]. *)

From Stdlib Require Import ZArith QArith String Ascii List Lia.
From Stdlib Require Import DecimalString DecimalPos DecimalZ.
From stdpp Require Import base option list gmap strings.

Local Open Scope string_scope.
Local Open Scope Z_scope.

(** ** Python values, exceptions, generators *)

(** The values a token field holds: [None], an [int], a [str].  A
    non-integer id (a range such as 4-5) is any value that is not an [int]. *)
Inductive PyVal : Type :=
  | VNone
  | VInt (n : Z)
  | VStr (s : string).

Global Instance PyVal_eq_dec : EqDecision PyVal.
Proof. solve_decision. Defined.

Inductive exn : Type :=
  | KeyError (key : string)
  | OSError (path : string)
  | UnicodeDecodeError
  | ParseException (line : string)
  | AlignmentError
  | ZeroDivisionError.

Global Instance exn_eq_dec : EqDecision exn.
Proof. solve_decision. Defined.

(** A call that returns a value or raises. *)
Inductive result (A : Type) : Type :=
  | Ok (a : A)
  | Raise (e : exn).
Arguments Ok {A} a.
Arguments Raise {A} e.

Definition rbind {A B} (r : result A) (k : A -> result B) : result B :=
  match r with
  | Ok a => k a
  | Raise e => Raise e
  end.

Notation "x <- r ;; k" := (rbind r (fun x => k))
  (at level 100, r at next level, right associativity, only parsing).

(** A generator, run to its end: what it yielded, in order, and the
    exception that stopped it ([None] when it was exhausted normally).
    Nothing is yielded after the exception. *)
Record gen (A : Type) : Type := Gen {
  yielded : list A;
  raised : option exn
}.
Arguments Gen {A} yielded raised.
Arguments yielded {A} g.
Arguments raised {A} g.

Definition gen_done {A} (l : list A) : gen A := Gen l None.
Definition gen_raise {A} (e : exn) : gen A := Gen [] (Some e).

(** [x] is yielded, then the generator goes on as [g]. *)
Definition gen_cons {A} (x : A) (g : gen A) : gen A :=
  Gen (x :: yielded g) (raised g).

(** [g1] runs; when it ends normally [g2] runs. *)
Definition gen_seq {A} (g1 g2 : gen A) : gen A :=
  match raised g1 with
  | Some e => g1
  | None => Gen (yielded g1 ++ yielded g2) (raised g2)
  end.

(** [for x in xs: yield from f(x)]. *)
Fixpoint yield_from_each {A B} (f : A -> gen B) (xs : list A) : gen B :=
  match xs with
  | [] => gen_done []
  | x :: xs' => gen_seq (f x) (yield_from_each f xs')
  end.

(** [for x in g: yield from f(x)] over a generator [g]: the error of [g]
    surfaces after the items it yielded have been consumed. *)
Definition gen_for {A B} (g : gen A) (f : A -> gen B) : gen B :=
  gen_seq (yield_from_each f (yielded g)) (Gen [] (raised g)).

(** ** Tokens and sentences *)

Abbreviation Token := (gmap string PyVal).
Abbreviation Sentence := (list (gmap string PyVal)).

(** [type(v) is int] *)
Definition is_int (v : PyVal) : bool :=
  match v with
  | VInt _ => true
  | _ => false
  end.

(** ** [parse_conll] *)

Definition _create_root : Token :=
  <["id" := VInt 0]> (
  <["form" := VStr "<ROOT>"]> (
  <["lemma" := VStr "<ROOT>"]> (
  <["upos" := VStr "ROOT"]> (
  <["xpos" := VStr "ROOT"]> (
  <["feats" := VStr "_"]> (
  <["head" := VInt 0]> (
  <["deprel" := VStr "root"]> (
  <["deps" := VStr "_"]> (
  <["misc" := VStr "_"]> ∅))))))))).

(** The loop [for token in tokenlist: if type(token['id']) is int:
    tokens.append(token)]; [token['id']] raises [KeyError] when the key is
    missing. *)
Fixpoint collect_tokens (tokens : Sentence) (tokenlist : list Token)
  : result Sentence :=
  match tokenlist with
  | [] => Ok tokens
  | token :: rest =>
      match token !! "id" with
      | None => Raise (KeyError "id")
      | Some v =>
          collect_tokens (if is_int v then tokens ++ [token] else tokens) rest
      end
  end.

Definition parse_conll (tokenlist : list Token) : gen Sentence :=
  match collect_tokens [_create_root] tokenlist with
  | Raise e => gen_raise e
  | Ok tokens =>
      if (1 <? Z.of_nat (length tokens)) then gen_done [tokens] else gen_done []
  end.

(** The tokens of a raw table that have an integer id. *)
Definition int_id (token : Token) : bool :=
  match token !! "id" with
  | Some v => is_int v
  | None => false
  end.

Definition has_id (token : Token) : Prop := is_Some (token !! "id").

(** A raw token table: every field-map carries an id, integer or not. *)
Definition raw_table (tokenlist : list Token) : Prop := Forall has_id tokenlist.

(** A canonical sentence is one that [parse_conll] yields. *)
Definition canonical (s : Sentence) : Prop :=
  exists tokenlist, yielded (parse_conll tokenlist) = [s].

(** ** [dump_conll] *)

Definition TAB : string := String (ascii_of_nat 9) "".
Definition NL : string := String (ascii_of_nat 10) "".

(** [str(v)]: an [int] in decimal, a [str] as it is. *)
Definition py_str (v : PyVal) : string :=
  match v with
  | VNone => "None"
  | VInt n => NilZero.string_of_int (Z.to_int n)
  | VStr s => s
  end.

(** [token.get(k)]: [None] when the key is missing. *)
Definition token_get (token : Token) (k : string) : PyVal :=
  match token !! k with
  | Some v => v
  | None => VNone
  end.

Definition attrs : list string :=
  ["id"; "form"; "lemma"; "upos"; "xpos"; "feats"; "head"; "deprel"; "deps";
   "misc"].

(** [str(v) if v is not None else "_"] *)
Definition col (v : PyVal) : string :=
  match v with
  | VNone => "_"
  | _ => py_str v
  end.

Definition cols (token : Token) : list string :=
  map (fun k => col (token_get token k)) attrs.

(** ["\t".join(cols) + "\n"] *)
Definition token_line (token : Token) : string :=
  String.concat TAB (cols token) ++ NL.

(** [token["id"] == 0] *)
Definition id_is_zero (v : PyVal) : bool :=
  match v with
  | VInt 0 => true
  | _ => false
  end.

(** The writer is the text written so far.  The inner loop over the tokens
    of one sentence: a token whose id is 0 is skipped, any other is written
    as one line; [token["id"]] raises [KeyError] when the key is missing and
    what was written before stays written. *)
Fixpoint dump_tokens (writer : string) (tokens : Sentence)
  : string * option exn :=
  match tokens with
  | [] => (writer, None)
  | token :: rest =>
      match token !! "id" with
      | None => (writer, Some (KeyError "id"))
      | Some v =>
          if id_is_zero v then dump_tokens writer rest
          else dump_tokens (writer ++ token_line token) rest
      end
  end.

Fixpoint dump_docs (writer : string) (docs : list Sentence)
  : string * option exn :=
  match docs with
  | [] => (writer, None)
  | tokens :: rest =>
      match dump_tokens writer tokens with
      | (w, Some e) => (w, Some e)
      | (w, None) => dump_docs (w ++ NL) rest
      end
  end.

(** [dump_conll(docs, writer)] on an empty writer: the text written and
    the exception raised, if any.  The final [flush] changes nothing of
    what is written. *)
Definition dump_conll (docs : list Sentence) : string * option exn :=
  dump_docs "" docs.

(** ** Text files

    Iterating a file opened in text mode delivers its lines one at a time
    and decodes the file chunk by chunk as it goes: the lines of the chunks
    decoded so far are delivered before a later chunk fails to decode.  A
    file is the sequence of what the iteration delivers, a decoded line
    (without its terminator) or the decoding failure that ends it. *)
Inductive read_event : Type :=
  | Line (text : string)
  | DecodeError.

Abbreviation file_system := (gmap string (list read_event)).

Definition HT : ascii := ascii_of_nat 9.
Definition LF : ascii := ascii_of_nat 10.
Definition CR : ascii := ascii_of_nat 13.

(** Text mode reads with universal newlines: a carriage return, alone or
    before a line feed, is read as a line feed. *)
Fixpoint universal_newlines (s : string) : string :=
  match s with
  | EmptyString => EmptyString
  | String c rest =>
      if Ascii.eqb c CR then
        match rest with
        | EmptyString => String LF EmptyString
        | String c' rest' =>
            if Ascii.eqb c' LF then String LF (universal_newlines rest')
            else String LF (universal_newlines rest)
        end
      else String c (universal_newlines rest)
  end.

(** The lines of a text, [cur] being the line under way. *)
Fixpoint lines_from (cur : string) (s : string) : list string :=
  match s with
  | EmptyString => if String.eqb cur "" then [] else [cur]
  | String c rest =>
      if Ascii.eqb c LF then cur :: lines_from "" rest
      else lines_from (cur ++ String c "") rest
  end.

(** What reading back a text that was written delivers. *)
Definition text_file (text : string) : list read_event :=
  map Line (lines_from "" (universal_newlines text)).

(** [write_conll(file, docs)]: the file holds what [dump_conll] wrote,
    also when it raised (the [with] block closes the file).  The path is
    taken to be writable. *)
Definition write_conll (fs : gmap string (list read_event)) (file : string)
    (docs : list Sentence) : gmap string (list read_event) * option exn :=
  (<[file := text_file (dump_conll docs).1]> fs, (dump_conll docs).2).

(** ** [read_conll] *)

Section Reader.

(** The tokenizer [parse_incr] of the [conllu] package reads the open
    file and yields one raw token table per sentence block. *)
Variable parse_incr : list read_event -> gen (list Token).

Definition read_conll (fs : gmap string (list read_event))
    (file_path : string) : gen Sentence :=
  match fs !! file_path with
  | None => gen_raise (OSError file_path)
  | Some f => gen_for (parse_incr f) parse_conll
  end.

End Reader.

(** Modelled from the spec: the tokenizer of the [conllu] package is not
    under src/.  Section 6: the fields of a line are separated by tabs;
    [cur] is the field under way. *)
Fixpoint split_on (sep : ascii) (cur : string) (s : string) : list string :=
  match s with
  | EmptyString => [cur]
  | String c rest =>
      if Ascii.eqb c sep then cur :: split_on sep "" rest
      else split_on sep (cur ++ String c "") rest
  end.

(** Modelled from the spec: the tokenizer of the [conllu] package is not
    under src/.  Sections 3 and 6: an integer column is the integer when
    the text is a decimal integer, the text itself otherwise (a range 4-5,
    an empty node 4.1, a placeholder). *)
Definition parse_int_value (s : string) : PyVal :=
  match NilZero.int_of_string s with
  | Some d => VInt (Z.of_int d)
  | None => VStr s
  end.

Module Conllu.

(** Modelled from the spec: the tokenizer [parse_incr] is imported from
    the [conllu] package and is not under src/.  Section 6: each token
    line has exactly 10 tab-separated fields in the fixed order of
    [attrs]; section 3: [id] and [head] are token positions (integers),
    a non-integer id is legal; the other fields are strings; section 7:
    a malformed token line raises. *)
Definition parse_line (line : string) : result Token :=
  match split_on HT "" line with
  | [id; form; lemma; upos; xpos; feats; head; deprel; deps; misc] =>
      Ok (<["id" := parse_int_value id]> (
          <["form" := VStr form]> (
          <["lemma" := VStr lemma]> (
          <["upos" := VStr upos]> (
          <["xpos" := VStr xpos]> (
          <["feats" := VStr feats]> (
          <["head" := parse_int_value head]> (
          <["deprel" := VStr deprel]> (
          <["deps" := VStr deps]> (
          <["misc" := VStr misc]> ∅))))))))))
  | _ => Raise (ParseException line)
  end.

(** Modelled from the spec: the tokenizer of the [conllu] package is not
    under src/.  Section 4.2: the token lines of one block, in order. *)
Fixpoint parse_block (lines : list string) : result (list Token) :=
  match lines with
  | [] => Ok []
  | line :: rest =>
      token <- parse_line line;;
      tokens <- parse_block rest;;
      Ok (token :: tokens)
  end.

(** Modelled from the spec: the tokenizer of the [conllu] package is not
    under src/.  Section 4.2: the block in [buf] is complete; it is
    tokenized and yielded, then the tokenizer goes on as [g]. *)
Definition emit (buf : list string) (g : gen (list Token))
  : gen (list Token) :=
  match parse_block buf with
  | Ok tokens => gen_cons tokens g
  | Raise e => gen_raise e
  end.

(** Modelled from the spec: the tokenizer of the [conllu] package is not
    under src/.  Section 4.2: a lazy single pass over the lines in file
    order, one table per blank-line-delimited block; a decoding failure
    raises when the iteration reaches it. *)
Fixpoint parse_incr_from (buf : list string) (events : list read_event)
  : gen (list Token) :=
  match events with
  | [] =>
      match buf with
      | [] => gen_done []
      | _ => emit buf (gen_done [])
      end
  | DecodeError :: _ => gen_raise UnicodeDecodeError
  | Line l :: rest =>
      if String.eqb l "" then
        match buf with
        | [] => parse_incr_from [] rest
        | _ => emit buf (parse_incr_from [] rest)
        end
      else parse_incr_from (buf ++ [l]) rest
  end.

(** Modelled from the spec: [parse_incr] of the [conllu] package is not
    under src/.  Section 4.2: the tokenizer on an open file. *)
Definition parse_incr (f : list read_event) : gen (list Token) :=
  parse_incr_from [] f.

End Conllu.

(** ** Sample data *)

(** A token line as a dictionary with the ten fields. *)
Definition mk_token (id : PyVal) (form upos : string) (head : PyVal)
    (deprel : string) : Token :=
  <["id" := id]> (
  <["form" := VStr form]> (
  <["lemma" := VStr form]> (
  <["upos" := VStr upos]> (
  <["xpos" := VNone]> (
  <["feats" := VNone]> (
  <["head" := head]> (
  <["deprel" := VStr deprel]> (
  <["deps" := VNone]> (
  <["misc" := VNone]> ∅))))))))).

(** The table of a multiword token 1-2 with its two words, then a full
    stop. *)
Definition sample_table : list Token :=
  [ mk_token (VStr "1-2") "vamonos" "_" VNone "_";
    mk_token (VInt 1) "vamos" "VERB" (VInt 0) "root";
    mk_token (VInt 2) "nos" "PRON" (VInt 1) "obj";
    mk_token (VInt 3) "." "PUNCT" (VInt 1) "punct" ].

Definition sample_sentence : Sentence :=
  [ _create_root;
    mk_token (VInt 1) "vamos" "VERB" (VInt 0) "root";
    mk_token (VInt 2) "nos" "PRON" (VInt 1) "obj";
    mk_token (VInt 3) "." "PUNCT" (VInt 1) "punct" ].

(** ** Properties of sentences *)






(** The pieces of text one after the other. *)
Definition concat_strings (l : list string) : string :=
  fold_right String.append "" l.

(** The tokens of a sentence that the writer emits. *)
Definition real_tokens (s : Sentence) : Sentence :=
  List.filter (fun token => negb (id_is_zero (token_get token "id"))) s.

(** The block of a sentence: the lines of its real tokens, then a blank
    line. *)
Definition sentence_block (s : Sentence) : string :=
  concat_strings (map token_line (real_tokens s)) ++ NL.

(** A token whose form is the empty string. *)
Definition empty_form_sentence : Sentence :=
  [ _create_root; mk_token (VInt 1) "" "X" (VInt 0) "root" ].

(** ** The evaluation loop of [test] (pytorch/parser.py)

    The accumulators [UAS], [LAS], [count] start at 0.0 and are added the
    three numbers that [evaluator.evaluate] returns for each sentence of
    each batch.  These are counts: they are integers here, which the float
    accumulators hold exactly.  The final division is a float division,
    rendered in the rationals; dividing by zero raises.  With [decode] the
    predictions are printed as well, which does not touch the
    accumulators. *)

Definition add3 (a b : Z * Z * Z) : Z * Z * Z :=
  let '(a1, a2, a3) := a in
  let '(b1, b2, b3) := b in
  (a1 + b1, a2 + b2, a3 + b3).

(** [x / y * 100] on floats. *)
Definition percent (x y : Z) : result Q :=
  if y =? 0 then Raise ZeroDivisionError
  else Ok (inject_Z x / inject_Z y * 100)%Q.

Section Test.

(** A sentence of a batch with the arcs and labels the parser predicted
    for it, and what [Evaluator.evaluate] (model.py, with the mask of
    [create_ignore_mask]) returns for it: [(_uas, _las, _count)]. *)
Variable Sample : Type.
Variable evaluator_evaluate : Sample -> Z * Z * Z.

(** The body of the inner loop:
    [UAS, LAS, count = UAS + _uas, LAS + _las, count + _count]. *)
Definition accumulate (acc : Z * Z * Z) (x : Sample) : Z * Z * Z :=
  add3 acc (evaluator_evaluate x).

(** The two nested loops over the batches of the dataset. *)
Definition test_totals (batches : list (list Sample)) : Z * Z * Z :=
  fold_left (fun acc batch => fold_left accumulate batch acc)
    batches (0, 0, 0).

(** What [test] logs, [(UAS / count * 100, LAS / count * 100)], or the
    exception it raises. *)
Definition test (batches : list (list Sample)) : result (Q * Q) :=
  let '(UAS, LAS, count) := test_totals batches in
  uas <- percent UAS count;;
  las <- percent LAS count;;
  Ok (uas, las).

End Test.

(** Modelled from the spec: [Evaluator.evaluate] of model.py is not under
    src/.  Section 4.5: over the positions of a sentence, the number of
    positions that are not masked and have the gold arc, the number of those
    that also have the gold label, and the number of positions that are not
    masked. *)
Record Position : Type := {
  pred_arc : Z;
  pred_label : Z;
  gold_arc : Z;
  gold_label : Z;
  ignored : bool
}.

(** Modelled from the spec: [Evaluator.evaluate] of model.py is not under
    src/.  Section 4.5: what one position adds to the three counts. *)
Definition score_position (p : Position) : Z * Z * Z :=
  if ignored p then (0, 0, 0)
  else if pred_arc p =? gold_arc p then
    (1, if pred_label p =? gold_label p then 1 else 0, 1)
  else (0, 0, 1).

(** Modelled from the spec: [Evaluator.evaluate] of model.py is not under
    src/.  Section 4.5: the three counts of a sentence. *)
Definition score_sentence (s : list Position) : Z * Z * Z :=
  fold_right (fun p acc => add3 (score_position p) acc) (0, 0, 0) s.


(** ** [evaluate] (utils/conllu.py) *)

(** Modelled from the spec: the score objects of utils/eval.py are not
    under src/.  Section 3: a metric is finalized into precision, recall and
    F1. *)
Record Score : Type := {
  precision : Q;
  recall : Q;
  f1 : Q
}.

(** The values of the dictionary that [evaluate] returns. *)
Inductive Reported : Type :=
  | RFloat (q : Q)
  | RStr (s : string).

(** [open(path)] *)
Definition open_file (fs : gmap string (list read_event)) (path : string)
  : result (list read_event) :=
  match fs !! path with
  | Some f => Ok f
  | None => Raise (OSError path)
  end.

(** [scores[key]] *)
Definition getitem (scores : gmap string Score) (key : string)
  : result Score :=
  match scores !! key with
  | Some sc => Ok sc
  | None => Raise (KeyError key)
  end.

Section Evaluate.

(** [eval.load_conllu] and [eval.evaluate] of utils/eval.py. *)
Variable Corpus : Type.
Variable load_conllu : list read_event -> result Corpus.
Variable eval_evaluate : Corpus -> Corpus -> result (gmap string Score).

Definition evaluate (fs : gmap string (list read_event))
    (gold_file system_file : string) : result (gmap string Reported) :=
  gf <- open_file fs gold_file;;
  sf <- open_file fs system_file;;
  gold <- load_conllu gf;;
  system <- load_conllu sf;;
  scores <- eval_evaluate gold system;;
  las <- getitem scores "LAS";;
  uas <- getitem scores "UAS";;
  Ok (<["LAS" := RFloat (f1 las)]> (
      <["UAS" := RFloat (f1 uas)]> (
      <["raw" := RStr ""]> ∅))).

End Evaluate.

Module UtilsEval.

(** Modelled from the spec: utils/eval.py is not under src/.  Section
    4.6: both corpora are read as in section 4.2. *)
Definition load_conllu (f : list read_event) : result (list Sentence) :=
  let g := gen_for (Conllu.parse_incr f) parse_conll in
  match raised g with
  | Some e => Raise e
  | None => Ok (yielded g)
  end.

Section Policy.

(** Section 4.4 of the spec: the ignore mask is a function of the tag
    values of the token and of the policy. *)
Variable ignore : Token -> bool.

(** Modelled from the spec: section 4.5 for one token of the gold
    sentence and the token at the same position of the system
    sentence. *)
Definition score_token (gold system : Token) : Z * Z * Z :=
  if ignore gold then (0, 0, 0)
  else if decide (token_get system "head" = token_get gold "head") then
    (1,
     if decide (token_get system "deprel" = token_get gold "deprel")
     then 1 else 0,
     1)
  else (0, 0, 1).

(** Modelled from the spec: utils/eval.py is not under src/.  Sections
    4.5 and 7: the counts of a sentence; sequences of different lengths
    are an error. *)
Fixpoint score_tokens (gold system : list Token) : result (Z * Z * Z) :=
  match gold, system with
  | [], [] => Ok (0, 0, 0)
  | g :: gold', s :: system' =>
      rest <- score_tokens gold' system';;
      Ok (add3 (score_token g s) rest)
  | _, _ => Raise AlignmentError
  end.

(** Modelled from the spec: utils/eval.py is not under src/.  Section
    4.6: the fold of the sentence results over the corpora, aligned by
    position; the root token is not scored. *)
Fixpoint score_corpus (gold system : list Sentence)
  : result (Z * Z * Z) :=
  match gold, system with
  | [], [] => Ok (0, 0, 0)
  | g :: gold', s :: system' =>
      here <- score_tokens (tail g) (tail s);;
      rest <- score_corpus gold' system';;
      Ok (add3 here rest)
  | _, _ => Raise AlignmentError
  end.

(** Modelled from the spec: utils/eval.py is not under src/.  Section
    4.6: precision, recall and F1 are the accuracy ratio. *)
Definition metric (correct total : Z) : Score :=
  {| precision := inject_Z correct / inject_Z total;
     recall := inject_Z correct / inject_Z total;
     f1 := inject_Z correct / inject_Z total |}.

(** Modelled from the spec: [evaluate] of utils/eval.py is not under
    src/.  Section 4.6: UAS and LAS over the totals; a zero total is an
    error. *)
Definition evaluate (gold system : list Sentence)
  : result (gmap string Score) :=
  totals <- score_corpus gold system;;
  let '(unlabeled, labeled, scored) := totals in
  if scored =? 0 then Raise ZeroDivisionError
  else Ok (<["UAS" := metric unlabeled scored]> (
           <["LAS" := metric labeled scored]> ∅)).

End Policy.

End UtilsEval.

(** [evaluate] of utils/conllu.py over this model of utils/eval.py. *)
Definition conllu_evaluate (ignore : Token -> bool) :=
  evaluate (list Sentence) UtilsEval.load_conllu (UtilsEval.evaluate ignore).

(** Two files that hold the same sentence. *)
Definition sample_fs : gmap string (list read_event) :=
  <["gold.conllu" := text_file (dump_conll [sample_sentence]).1]> (
  <["system.conllu" := text_file (dump_conll [sample_sentence]).1]> ∅).

(** [x] as a percentage of [y]. *)
Definition percentage (x y : Z) : Q := (100 * (inject_Z x / inject_Z y))%Q.

(** ** Reading back *)

(** The text of the sample sentence, as the writer writes it. *)
Definition sample_text : string := (dump_conll [sample_sentence]).1.

(** The sample sentence as it is read back: the fields that were [None]
    are underscores. *)
Definition sample_sentence_read : Sentence :=
  [ _create_root;
    <["xpos" := VStr "_"]> (<["feats" := VStr "_"]> (<["deps" := VStr "_"]> (
      <["misc" := VStr "_"]> (mk_token (VInt 1) "vamos" "VERB" (VInt 0) "root"))));
    <["xpos" := VStr "_"]> (<["feats" := VStr "_"]> (<["deps" := VStr "_"]> (
      <["misc" := VStr "_"]> (mk_token (VInt 2) "nos" "PRON" (VInt 1) "obj"))));
    <["xpos" := VStr "_"]> (<["feats" := VStr "_"]> (<["deps" := VStr "_"]> (
      <["misc" := VStr "_"]> (mk_token (VInt 3) "." "PUNCT" (VInt 1) "punct")))) ].



(** ** Writing, then reading back *)

(** The reader on what the writer wrote for the sentence [s]. *)
Definition read_back (parse_incr : list read_event -> gen (list Token))
    (file : string) (s : Sentence) : gen Sentence :=
  read_conll parse_incr (write_conll ∅ file [s]).1 file.




Fixpoint has_char (c : ascii) (s : string) : bool :=
  match s with
  | EmptyString => false
  | String c' rest => Ascii.eqb c' c || has_char c rest
  end.

(** A text without tab, line feed and carriage return. *)
Definition clean (s : string) : bool :=
  negb (has_char HT s) && negb (has_char LF s) && negb (has_char CR s).

(** A string field: a clean string, [None] or absent. *)
Definition text_field (v : PyVal) : bool :=
  match v with
  | VNone => true
  | VInt _ => false
  | VStr s => clean s
  end.

(** An integer field: an integer, [None] or absent, or a clean string that
    is not a decimal integer. *)
Definition int_field (v : PyVal) : bool :=
  match v with
  | VNone => true
  | VInt _ => true
  | VStr s =>
      clean s && match NilZero.int_of_string s with
                 | Some _ => false
                 | None => true
                 end
  end.

(** A token as the data model of section 3 has it: a non-zero integer id,
    an integer field head, string fields otherwise. *)
Definition typed_token (t : Token) : bool :=
  match t !! "id" with
  | Some (VInt n) => negb (n =? 0)
  | _ => false
  end
  && int_field (token_get t "head")
  && forallb (fun k => text_field (token_get t k))
       ["form"; "lemma"; "upos"; "xpos"; "feats"; "deprel"; "deps"; "misc"].




(** The labeled count is at most the unlabeled count, which is at most
    the scored count. *)
Definition counts_ordered (c : Z * Z * Z) : Prop :=
  0 <= c.1.2 /\ c.1.2 <= c.1.1 /\ c.1.1 <= c.2.

(** A token numbered 0, which the writer takes for the root, and a form
    that holds a tab. *)
Definition zero_id_sentence : Sentence :=
  [ _create_root; mk_token (VInt 0) "ven" "VERB" (VInt 0) "root" ].

Definition tab_form_sentence : Sentence :=
  [ _create_root; mk_token (VInt 1) ("a" ++ TAB ++ "b") "X" (VInt 0) "root" ].

(** ** Further sample data *)

(** A token line without an id. *)
Definition no_id_token : Token :=
  <["form" := VStr "?"]> ∅.

(** A table whose third token has no id. *)
Definition faulty_table : list Token :=
  [ mk_token (VInt 1) "vamos" "VERB" (VInt 0) "root";
    mk_token (VInt 2) "nos" "PRON" (VInt 1) "obj";
    no_id_token;
    mk_token (VInt 3) "." "PUNCT" (VInt 1) "punct" ].

(** The text of the lines of the real tokens of a sentence, without the
    blank line that ends a block. *)
Definition sentence_lines (s : Sentence) : string :=
  concat_strings (map token_line (real_tokens s)).

(** A sentence whose second token has no id, after a good sentence. *)
Definition faulty_docs : list Sentence :=
  [ sample_sentence;
    [ _create_root;
      mk_token (VInt 1) "ven" "VERB" (VInt 0) "root";
      no_id_token;
      mk_token (VInt 2) "." "PUNCT" (VInt 1) "punct" ];
    sample_sentence ].

(** The line of a token without its terminator, and the lines of the block
    of a sentence: those of its real tokens, then an empty line. *)
Definition token_row (token : Token) : string :=
  String.concat TAB (cols token).

Definition block_rows (s : Sentence) : list string :=
  (map token_row (real_tokens s) ++ [""])%list.

(** The ten columns of the token hold neither tab nor line feed nor
    carriage return. *)
Definition clean_cols (token : Token) : bool := forallb clean (cols token).

(** The sentences that the tables of a file give: one for each table that
    has a token with an integer id. *)
Definition table_sentences (tokenlist : list Token) : list Sentence :=
  match List.filter int_id tokenlist with
  | [] => []
  | real => [_create_root :: real]
  end.

Definition sentences_of (tables : list (list Token)) : list Sentence :=
  flat_map table_sentences tables.

(** A tokenizer that yields three tables, the second with a token without
    id, whatever the file. *)
Definition faulty_parse_incr (f : list read_event) : gen (list Token) :=
  gen_done [sample_table; faulty_table; sample_table].

(** A file of two blocks, the second of a multiword token alone. *)
Definition two_block_fs : gmap string (list read_event) :=
  <["two.conllu" :=
      text_file (sample_text ++ "1-2" ++ TAB ++ "vamonos" ++ TAB ++ "_" ++ TAB
                 ++ "_" ++ TAB ++ "_" ++ TAB ++ "_" ++ TAB ++ "_" ++ TAB ++ "_"
                 ++ TAB ++ "_" ++ TAB ++ "_" ++ NL ++ NL)]> ∅.

(** An evaluator of utils/eval.py that scores nothing: no metric at all. *)
Definition no_scores (gold system : list Sentence)
  : result (gmap string Score) := Ok ∅.

(** Two sentences with predictions: one token right out of two, and both
    tokens right with one label wrong. *)
Definition half_right : list Position :=
  [ {| pred_arc := 2; pred_label := 1; gold_arc := 2; gold_label := 1;
       ignored := false |};
    {| pred_arc := 1; pred_label := 3; gold_arc := 0; gold_label := 3;
       ignored := false |} ].

Definition arcs_right : list Position :=
  [ {| pred_arc := 0; pred_label := 5; gold_arc := 0; gold_label := 5;
       ignored := false |};
    {| pred_arc := 1; pred_label := 2; gold_arc := 1; gold_label := 4;
       ignored := false |} ].

(** ** The loop of [test] in detail

    The same loop with what the sample of the section above hides: the
    batch as the four sequences it is made of, the predictions of the
    parser, the [zip] of the predictions with the targets, the indexing of
    the batch by the position in the [zip], and what [decode] prints. *)

(** A batch: [batch[:-1]] is the pair of the word and tag sequences of its
    sentences; [batch[-1]] holds, for each sentence, the gold arcs and the
    gold labels, which the transposition [batch[-1].T] separates. *)
Record Batch : Type := {
  word_tokens : list (list Z);
  pos_tokens : list (list Z);
  targets : list (list Z * list Z)
}.

Definition true_arcs (b : Batch) : list (list Z) := map fst (targets b).
Definition true_labels (b : Batch) : list (list Z) := map snd (targets b).

(** [zip] of four sequences: as long as the shortest. *)
Fixpoint zip4 {A B C D : Type} (a : list A) (b : list B) (c : list C)
    (d : list D) : list (A * B * C * D) :=
  match a, b, c, d with
  | x :: a', y :: b', z :: c', w :: d' => (x, y, z, w) :: zip4 a' b' c' d'
  | _, _, _, _ => []
  end.

(** [word_tokens[i]] out of range. *)
Inductive loop_error : Type := IndexError.

Section TestLoop.

(** [parser.parse], [evaluator.create_ignore_mask], [evaluator.evaluate],
    [loader.get_sentence], [pos_map.lookup] and [label_map.lookup]: model.py
    and the loader are not under src/. *)
Variable parser_parse :
  list (list Z) -> list (list Z) -> list (list Z) * list (list Z).
Variable create_ignore_mask : list Z -> list Z -> list bool.
Variable evaluate_sentence :
  list Z -> list Z -> list Z -> list Z -> list bool -> Z * Z * Z.
Variable get_sentence : list Z -> list string.
Variable pos_lookup : Z -> string.
Variable label_lookup : Z -> string.

(** [print("\t".join([word, pos_map.lookup(pos_id), str(arc),
    label_map.lookup(label_id)]))] *)
Definition decode_line (item : string * Z * Z * Z) : string :=
  let '(word, pos_id, arc, label_id) := item in
  String.concat TAB
    [word; pos_lookup pos_id; py_str (VInt arc); label_lookup label_id]
  ++ NL.

(** What [decode] prints for a sentence: a line for each position of the
    [zip] of [words[1:]], [pos_tokens[i][1:]], [p_arcs[1:]] and
    [p_labels[1:]], then an empty line. *)
Definition decode_sentence (words : list string) (pos p_arcs p_labels : list Z)
  : string :=
  concat_strings
    (map decode_line (zip4 (tail words) (tail pos) (tail p_arcs) (tail p_labels)))
  ++ NL.

(** The inner loop, from position [i] of the [zip] on: what is printed,
    the accumulators, and the exception that stopped the loop, if any. *)
Fixpoint test_sentences (decode : bool) (b : Batch) (i : nat)
    (items : list (list Z * list Z * list Z * list Z))
    (out : string) (acc : Z * Z * Z)
  : string * (Z * Z * Z) * option loop_error :=
  match items with
  | [] => (out, acc, None)
  | (p_arcs, p_labels, t_arcs, t_labels) :: rest =>
      match word_tokens b !! i, pos_tokens b !! i with
      | Some words_i, Some pos_i =>
          let mask := create_ignore_mask words_i pos_i in
          let scores := evaluate_sentence p_arcs p_labels t_arcs t_labels mask in
          let out' :=
            if decode
            then out ++ decode_sentence (get_sentence words_i) pos_i p_arcs p_labels
            else out in
          test_sentences decode b (S i) rest out' (add3 acc scores)
      | _, _ => (out, acc, Some IndexError)
      end
  end.

(** The sentences of a batch that the inner loop goes through. *)
Definition batch_items (b : Batch)
  : list (list Z * list Z * list Z * list Z) :=
  let '(arcs_batch, labels_batch) :=
    parser_parse (word_tokens b) (pos_tokens b) in
  zip4 arcs_batch labels_batch (true_arcs b) (true_labels b).

(** The outer loop over the batches. *)
Fixpoint test_batches (decode : bool) (batches : list Batch)
    (out : string) (acc : Z * Z * Z)
  : string * (Z * Z * Z) * option loop_error :=
  match batches with
  | [] => (out, acc, None)
  | b :: rest =>
      match test_sentences decode b 0 (batch_items b) out acc with
      | (out', acc', None) => test_batches decode rest out' acc'
      | stopped => stopped
      end
  end.

(** The loop of [test] from its start: nothing printed, [UAS, LAS, count
    = 0.0, 0.0, 0.0]. *)
Definition test_loop (decode : bool) (batches : list Batch)
  : string * (Z * Z * Z) * option loop_error :=
  test_batches decode batches "" (0, 0, 0).

(** A sentence of a batch with all that the loop uses of it, and what the
    evaluator returns for it. *)
Definition aligned_samples (b : Batch)
  : list (list Z * list Z * (list Z * list Z * list Z * list Z)) :=
  zip (zip (word_tokens b) (pos_tokens b)) (batch_items b).

Definition evaluate_sample
    (x : list Z * list Z * (list Z * list Z * list Z * list Z)) : Z * Z * Z :=
  let '(words_i, pos_i, (p_arcs, p_labels, t_arcs, t_labels)) := x in
  evaluate_sentence p_arcs p_labels t_arcs t_labels
    (create_ignore_mask words_i pos_i).

End TestLoop.

(** The batch without the gold sentences that the parser gave no
    predicted arcs for. *)
Definition cut_targets
    (parser_parse :
       list (list Z) -> list (list Z) -> list (list Z) * list (list Z))
    (b : Batch) : Batch :=
  {| word_tokens := word_tokens b;
     pos_tokens := pos_tokens b;
     targets :=
       take (length (parser_parse (word_tokens b) (pos_tokens b)).1)
         (targets b) |}.

(** The batch is large enough for the loop: it has the word and tag
    sequences of every sentence that the loop goes through. *)
Definition indexable
    (parser_parse :
       list (list Z) -> list (list Z) -> list (list Z) * list (list Z))
    (b : Batch) : Prop :=
  (length (batch_items parser_parse b) <= length (word_tokens b))%nat /\
  (length (batch_items parser_parse b) <= length (pos_tokens b))%nat.

(** Sample collaborators: a parser that predicts two sentences whatever
    the batch, no mask, and an evaluator that scores a sentence as one
    token. *)
Definition two_predictions (words pos : list (list Z))
  : list (list Z) * list (list Z) :=
  ([[0; 2; 0]; [0; 0]], [[0; 1; 1]; [0; 1]]).

Definition no_mask (words pos : list Z) : list bool :=
  map (fun _ => false) pos.

Definition whole_sentence (p_arcs p_labels t_arcs t_labels : list Z)
    (mask : list bool) : Z * Z * Z :=
  if decide (p_arcs = t_arcs) then
    (1, if decide (p_labels = t_labels) then 1 else 0, 1)
  else (0, 0, 1).

Definition word_of (ids : list Z) : list string :=
  map (fun i => py_str (VInt i)) ids.

Definition tag_of (i : Z) : string := py_str (VInt i).

(** A batch of two sentences, a batch of three, and a batch that lacks the
    words of its second sentence. *)
Definition batch_of_two : Batch :=
  {| word_tokens := [[0; 5; 6]; [0; 7]];
     pos_tokens := [[0; 1; 2]; [0; 3]];
     targets := [([0; 2; 0], [0; 1; 2]); ([0; 0], [0; 1])] |}.

Definition batch_of_three : Batch :=
  {| word_tokens := [[0; 5; 6]; [0; 7]; [0; 8]];
     pos_tokens := [[0; 1; 2]; [0; 3]; [0; 4]];
     targets := [([0; 2; 0], [0; 1; 2]); ([0; 0], [0; 1]); ([0; 0], [0; 2])] |}.

Definition short_batch : Batch :=
  {| word_tokens := [[0; 5; 6]];
     pos_tokens := [[0; 1; 2]; [0; 3]];
     targets := [([0; 2; 0], [0; 1; 2]); ([0; 0], [0; 1])] |}.

(** ** The files that [train] saves (pytorch/parser.py)

    [os.path.join] with two components, on a POSIX system: a second
    component that starts with a slash replaces the first; otherwise the
    two are joined with a slash, unless the first is empty or already ends
    with one. *)
Definition starts_with_sep (s : string) : bool :=
  match s with
  | String c _ => Ascii.eqb c "/"
  | EmptyString => false
  end.

Fixpoint ends_with_sep (s : string) : bool :=
  match s with
  | EmptyString => false
  | String c EmptyString => Ascii.eqb c "/"
  | String _ rest => ends_with_sep rest
  end.

Definition path_join (a b : string) : string :=
  if starts_with_sep b then b
  else if String.eqb a "" || ends_with_sep a then a ++ b
  else a ++ "/" ++ b.

(** [os.path.join(save_to, "{}-{}.{}.mdl".format(date, accessid, epoch))]:
    the file that [_save] writes the model to at the end of an epoch;
    [date] and [accessid] are read once, before the training starts. *)
Definition model_file (save_to date accessid : string) (epoch : Z) : string :=
  path_join save_to
    (date ++ "-" ++ accessid ++ "." ++ py_str (VInt epoch) ++ ".mdl").

(** [os.path.join(save_to, "{}-{}.context".format(date, accessid))] *)
Definition context_file (save_to date accessid : string) : string :=
  path_join save_to (date ++ "-" ++ accessid ++ ".context").



(** * Properties *)

(** ** The record model: [parse_conll] *)

Lemma collect_tokens_raw (tokenlist : list Token) : forall tokens,
  raw_table tokenlist ->
  collect_tokens tokens tokenlist
  = Ok (tokens ++ List.filter int_id tokenlist)%list.
Proof.
  induction tokenlist as [|token rest IH]; intros tokens Hraw; simpl.
  - by rewrite app_nil_r.
  - inversion Hraw as [|? ? [v Hv] Hrest]; subst.
    unfold int_id at 1. rewrite Hv.
    destruct (is_int v); rewrite IH by done.
    + by rewrite <- app_assoc.
    + done.
Qed.

(** A table that [collect_tokens] accepts is a raw table. *)
Lemma collect_tokens_Ok (tokenlist : list Token) : forall tokens tokens',
  collect_tokens tokens tokenlist = Ok tokens' -> raw_table tokenlist.
Proof.
  induction tokenlist as [|token rest IH]; intros tokens tokens' H; simpl in H.
  - constructor.
  - destruct (token !! "id") as [v|] eqn:Hv; [|discriminate].
    constructor; [by exists v | by eapply IH].
Qed.

Lemma filter_int_id_Forall (tokenlist : list Token) :
  Forall (fun t => int_id t = true) (List.filter int_id tokenlist).
Proof.
  apply List.Forall_forall. intros t Ht.
  by apply List.filter_In in Ht as [_ Ht].
Qed.

Lemma parse_conll_raw (tokenlist : list Token) :
  raw_table tokenlist ->
  parse_conll tokenlist =
    match List.filter int_id tokenlist with
    | [] => gen_done []
    | real => gen_done [_create_root :: real]
    end.
Proof.
  intros Hraw. unfold parse_conll.
  rewrite collect_tokens_raw by done.
  destruct (List.filter int_id tokenlist) as [|t real]; [done|].
  rewrite length_app. cbn [length app].
  destruct (Z.ltb_spec 1 (Z.of_nat (1 + S (length real)))); [done | lia].
Qed.

(** What [parse_conll] yields, whatever the table. *)
Lemma parse_conll_yielded (tokenlist : list Token) (s : Sentence) :
  s ∈ yielded (parse_conll tokenlist) ->
  raw_table tokenlist /\
  List.filter int_id tokenlist <> [] /\
  s = _create_root :: List.filter int_id tokenlist.
Proof.
  intros Hs.
  assert (raw_table tokenlist) as Hraw.
  { unfold parse_conll in Hs.
    destruct (collect_tokens [_create_root] tokenlist) eqn:Hc.
    - by eapply collect_tokens_Ok.
    - simpl in Hs. by apply elem_of_nil in Hs. }
  rewrite parse_conll_raw in Hs by done.
  destruct (List.filter int_id tokenlist) as [|t real]; simpl in Hs.
  - by apply elem_of_nil in Hs.
  - apply list_elem_of_singleton in Hs. by subst.
Qed.

Lemma canonical_inv (s : Sentence) :
  canonical s ->
  exists real, s = _create_root :: real /\ real <> [] /\
    Forall (fun t => int_id t = true) real.
Proof.
  intros [tokenlist Hy].
  destruct (parse_conll_yielded tokenlist s) as (_ & Hne & ->).
  { rewrite Hy. by apply list_elem_of_singleton. }
  eexists; split; [done|]. split; [done | apply filter_int_id_Forall].
Qed.

Lemma filter_int_id_id (real : list Token) :
  Forall (fun t => int_id t = true) real -> List.filter int_id real = real.
Proof.
  induction 1 as [|t real Ht _ IH]; simpl; [done|]. by rewrite Ht, IH.
Qed.

Lemma int_id_has_id (t : Token) : int_id t = true -> has_id t.
Proof.
  unfold int_id, has_id. destruct (t !! "id"); [eauto | discriminate].
Qed.


(** C1: for a raw token table (every field-map has an id, integer or
    not), [parse_conll] yields exactly one sentence, the root token followed
    by the integer-id tokens of the table in their order, and yields
    nothing when the table has no integer-id token.  It does not raise. *)
Theorem parse_conll_root_then_integer_ids (tokenlist : list Token) :
  raw_table tokenlist ->
  parse_conll tokenlist =
    match List.filter int_id tokenlist with
    | [] => gen_done []
    | real => gen_done [_create_root :: real]
    end.
Proof. apply parse_conll_raw. Qed.

Lemma parse_conll_root_then_integer_ids_witness :
  raw_table sample_table /\
  parse_conll sample_table = gen_done [sample_sentence].
Proof.
  assert (raw_table sample_table) as Hraw.
  { repeat constructor; eexists; vm_compute; reflexivity. }
  split; [exact Hraw|].
  rewrite (parse_conll_root_then_integer_ids sample_table Hraw).
  reflexivity.
Defined.

Lemma sample_table_parsed :
  parse_conll sample_table = gen_done [sample_sentence].
Proof. reflexivity. Qed.

(** C9: every sentence that [parse_conll] yields begins with a root token
    that has exactly the ten fields id 0, form <ROOT>, lemma <ROOT>, upos
    ROOT, xpos ROOT, feats _, head 0, deprel root, deps _, misc _. *)
Theorem parse_conll_root_sentinel (tokenlist : list Token) (s : Sentence) :
  s ∈ yielded (parse_conll tokenlist) ->
  exists root real,
    s = root :: real /\
    root !! "id" = Some (VInt 0) /\
    root !! "form" = Some (VStr "<ROOT>") /\
    root !! "lemma" = Some (VStr "<ROOT>") /\
    root !! "upos" = Some (VStr "ROOT") /\
    root !! "xpos" = Some (VStr "ROOT") /\
    root !! "feats" = Some (VStr "_") /\
    root !! "head" = Some (VInt 0) /\
    root !! "deprel" = Some (VStr "root") /\
    root !! "deps" = Some (VStr "_") /\
    root !! "misc" = Some (VStr "_") /\
    dom root = list_to_set attrs.
Proof.
  intros Hs. apply parse_conll_yielded in Hs as (_ & _ & ->).
  exists _create_root, (List.filter int_id tokenlist).
  split; [done|]. repeat (split; [reflexivity|]).
  unfold _create_root, attrs. rewrite !dom_insert_L, dom_empty_L. simpl.
  set_solver.
Qed.

Lemma parse_conll_root_sentinel_witness :
  exists root real,
    sample_sentence = root :: real /\
    root !! "id" = Some (VInt 0) /\
    root !! "form" = Some (VStr "<ROOT>") /\
    root !! "lemma" = Some (VStr "<ROOT>") /\
    root !! "upos" = Some (VStr "ROOT") /\
    root !! "xpos" = Some (VStr "ROOT") /\
    root !! "feats" = Some (VStr "_") /\
    root !! "head" = Some (VInt 0) /\
    root !! "deprel" = Some (VStr "root") /\
    root !! "deps" = Some (VStr "_") /\
    root !! "misc" = Some (VStr "_") /\
    dom root = list_to_set attrs.
Proof.
  apply (parse_conll_root_sentinel sample_table sample_sentence).
  rewrite sample_table_parsed. simpl. left.
Defined.

(** ** The root invariant *)









(** ** The writer: [dump_conll] *)

Lemma append_nil_l (s : string) : "" ++ s = s.
Proof. reflexivity. Qed.

Lemma append_cons (c : ascii) (s1 s2 : string) :
  String c s1 ++ s2 = String c (s1 ++ s2).
Proof. reflexivity. Qed.

Lemma append_assoc (s1 s2 s3 : string) : (s1 ++ s2) ++ s3 = s1 ++ (s2 ++ s3).
Proof.
  induction s1 as [|c s1 IH]; [done|]. by rewrite !append_cons, IH.
Qed.

Lemma append_nil_r (s : string) : s ++ "" = s.
Proof. induction s as [|c s IH]; [done|]. by rewrite append_cons, IH. Qed.

Lemma concat_strings_app (l1 l2 : list string) :
  concat_strings (l1 ++ l2) = concat_strings l1 ++ concat_strings l2.
Proof.
  induction l1 as [|x l1 IH]; [done|].
  change (x ++ concat_strings (l1 ++ l2)
          = (x ++ concat_strings l1) ++ concat_strings l2).
  by rewrite IH, append_assoc.
Qed.

Lemma dump_tokens_has_id (tokens : Sentence) : forall writer,
  Forall has_id tokens ->
  dump_tokens writer tokens
  = (writer ++ concat_strings (map token_line (real_tokens tokens)), None).
Proof.
  induction tokens as [|token rest IH]; intros writer Hid; simpl.
  - by rewrite append_nil_r.
  - inversion Hid as [|? ? [v Hv] Hrest]; subst.
    unfold token_get at 1. rewrite Hv.
    destruct (id_is_zero v); simpl; rewrite IH by done; [done|].
    by rewrite append_assoc.
Qed.

Lemma dump_docs_has_id (docs : list Sentence) : forall writer,
  Forall (Forall has_id) docs ->
  dump_docs writer docs
  = (writer ++ concat_strings (map sentence_block docs), None).
Proof.
  induction docs as [|tokens rest IH]; intros writer Hid; simpl.
  - by rewrite append_nil_r.
  - inversion Hid as [|? ? Htokens Hrest]; subst.
    rewrite dump_tokens_has_id by done. rewrite IH by done.
    unfold sentence_block. by rewrite !append_assoc.
Qed.

Lemma canonical_has_id (s : Sentence) : canonical s -> Forall has_id s.
Proof.
  intros Hs. apply canonical_inv in Hs as (real & -> & _ & Hreal).
  constructor; [by eexists|].
  eapply Forall_impl; [exact Hreal | apply int_id_has_id].
Qed.

Lemma real_tokens_spec (s : Sentence) (t : Token) :
  t ∈ real_tokens s <-> t ∈ s /\ t !! "id" <> Some (VInt 0).
Proof.
  unfold real_tokens. rewrite !list_elem_of_In, List.filter_In.
  unfold token_get.
  destruct (t !! "id") as [[| [| p | p] |]|]; simpl; split;
    intros [? ?]; split; congruence.
Qed.

Lemma col_token_get (t : Token) (k : string) :
  col (token_get t k)
  = match t !! k with
    | None | Some VNone => "_"
    | Some v => py_str v
    end.
Proof. unfold token_get, col. by destruct (t !! k) as [[| n | s]|]. Qed.

(** C3 (as stated, it fails): a field whose value is the empty string is
    written as an empty column, not as the placeholder. *)
Lemma empty_form_written_empty :
  canonical empty_form_sentence /\
  dump_conll [empty_form_sentence]
  = ("1" ++ TAB ++ "" ++ TAB ++ "" ++ TAB ++ "X" ++ TAB ++ "_" ++ TAB ++ "_"
     ++ TAB ++ "0" ++ TAB ++ "root" ++ TAB ++ "_" ++ TAB ++ "_" ++ NL ++ NL,
     None) /\
  dump_conll [empty_form_sentence]
  <> ("1" ++ TAB ++ "_" ++ TAB ++ "_" ++ TAB ++ "X" ++ TAB ++ "_" ++ TAB ++ "_"
      ++ TAB ++ "0" ++ TAB ++ "root" ++ TAB ++ "_" ++ TAB ++ "_" ++ NL ++ NL,
      None).
Proof.
  split.
  - exists (tail empty_form_sentence). reflexivity.
  - split; [reflexivity|]. vm_compute. discriminate.
Qed.

(** C3 (amended): for canonical sentences the writer does not raise and
    writes the blocks of the sentences one after the other; the block of a
    sentence is one line per token whose id is not 0, in the order of the
    sentence, followed by one blank line; a line is the ten columns id,
    form, lemma, upos, xpos, feats, head, deprel, deps, misc joined by tabs,
    where a field that is absent or [None] is written as an underscore and
    any other value as its [str] text (an empty string as an empty
    column). *)
Theorem dump_conll_canonical (docs : list Sentence) :
  Forall canonical docs ->
  dump_conll docs = (concat_strings (map sentence_block docs), None) /\
  (forall s, sentence_block s
     = concat_strings (map token_line (real_tokens s)) ++ NL) /\
  (forall s t, t ∈ real_tokens s <-> t ∈ s /\ t !! "id" <> Some (VInt 0)) /\
  (forall s, exists keep, real_tokens s = List.filter keep s) /\
  (forall t, token_line t
     = String.concat TAB
         (map (fun k => match t !! k with
                        | None | Some VNone => "_"
                        | Some v => py_str v
                        end)
            ["id"; "form"; "lemma"; "upos"; "xpos"; "feats"; "head";
             "deprel"; "deps"; "misc"]) ++ NL).
Proof.
  intros Hdocs. split; [|split; [done|split; [apply real_tokens_spec|split]]].
  - unfold dump_conll. rewrite dump_docs_has_id; [done|].
    eapply Forall_impl; [exact Hdocs | apply canonical_has_id].
  - intros s. by eexists.
  - intros t. unfold token_line, cols, attrs. f_equal. f_equal.
    apply map_ext. intros k. apply col_token_get.
Qed.

Lemma dump_conll_canonical_witness :
  Forall canonical [sample_sentence] /\
  dump_conll [sample_sentence]
  = (concat_strings (map sentence_block [sample_sentence]), None).
Proof.
  assert (Forall canonical [sample_sentence]) as H.
  { repeat constructor. exists sample_table. by rewrite sample_table_parsed. }
  split; [exact H|]. exact (proj1 (dump_conll_canonical [sample_sentence] H)).
Defined.

(** ** The evaluation loop of [test] *)

Lemma add3_zero_l (a : Z * Z * Z) : add3 (0, 0, 0) a = a.
Proof. by destruct a as [[a1 a2] a3]. Qed.

Lemma add3_zero_r (a : Z * Z * Z) : add3 a (0, 0, 0) = a.
Proof. destruct a as [[a1 a2] a3]. unfold add3. f_equal; [f_equal|]; lia. Qed.

Lemma add3_assoc (a b c : Z * Z * Z) :
  add3 (add3 a b) c = add3 a (add3 b c).
Proof.
  destruct a as [[a1 a2] a3], b as [[b1 b2] b3], c as [[c1 c2] c3].
  unfold add3. f_equal; [f_equal|]; lia.
Qed.

Section TestFacts.

Context {Sample : Type} (ev : Sample -> Z * Z * Z).

Lemma fold_accumulate (batch : list Sample) : forall acc,
  fold_left (accumulate Sample ev) batch acc
  = add3 acc (fold_left (accumulate Sample ev) batch (0, 0, 0)).
Proof.
  induction batch as [|x batch IH]; intros acc; cbn [fold_left].
  - by rewrite add3_zero_r.
  - rewrite IH. rewrite (IH (accumulate Sample ev (0, 0, 0) x)).
    unfold accumulate. by rewrite add3_zero_l, add3_assoc.
Qed.

Lemma fold_batches (batches : list (list Sample)) : forall acc,
  fold_left (fun acc batch => fold_left (accumulate Sample ev) batch acc)
    batches acc
  = add3 acc (test_totals Sample ev batches).
Proof.
  unfold test_totals.
  induction batches as [|b batches IH]; intros acc; cbn [fold_left].
  - by rewrite add3_zero_r.
  - rewrite IH.
    rewrite (IH (fold_left (accumulate Sample ev) b (0, 0, 0))).
    rewrite (fold_accumulate b acc). by rewrite add3_assoc.
Qed.

Lemma test_totals_app (b1 b2 : list (list Sample)) :
  test_totals Sample ev (b1 ++ b2)
  = add3 (test_totals Sample ev b1) (test_totals Sample ev b2).
Proof.
  unfold test_totals at 1. rewrite fold_left_app.
  fold (test_totals Sample ev b1). apply fold_batches.
Qed.

Lemma test_totals_single (x : Sample) :
  test_totals Sample ev [[x]] = ev x.
Proof.
  unfold test_totals. cbn [fold_left]. unfold accumulate. apply add3_zero_l.
Qed.

Lemma test_totals_batch (x y : Sample) :
  test_totals Sample ev [[x; y]] = add3 (ev x) (ev y).
Proof.
  unfold test_totals. cbn [fold_left]. unfold accumulate.
  by rewrite add3_zero_l.
Qed.

End TestFacts.

(** C4: the totals of a corpus of two sentences, in one batch or in two,
    are the elementwise sum of the totals of each sentence evaluated alone,
    which are what the evaluator returns for it; and the totals of a corpus
    made of two parts are the sum of the totals of the parts. *)
Theorem test_totals_is_sum (Sample : Type)
    (evaluator_evaluate : Sample -> Z * Z * Z) (s1 s2 : Sample) :
  test_totals Sample evaluator_evaluate [[s1; s2]]
  = add3 (test_totals Sample evaluator_evaluate [[s1]])
         (test_totals Sample evaluator_evaluate [[s2]]) /\
  test_totals Sample evaluator_evaluate [[s1]; [s2]]
  = add3 (test_totals Sample evaluator_evaluate [[s1]])
         (test_totals Sample evaluator_evaluate [[s2]]) /\
  test_totals Sample evaluator_evaluate [[s1]] = evaluator_evaluate s1 /\
  forall corpus1 corpus2,
    test_totals Sample evaluator_evaluate (corpus1 ++ corpus2)
    = add3 (test_totals Sample evaluator_evaluate corpus1)
           (test_totals Sample evaluator_evaluate corpus2).
Proof.
  split; [|split; [|split]].
  - by rewrite test_totals_batch, !test_totals_single.
  - apply (test_totals_app evaluator_evaluate [[s1]] [[s2]]).
  - apply test_totals_single.
  - apply test_totals_app.
Qed.




(** A score of 0 is something else: a corpus with scored tokens of which
    none is right is reported as 0. *)
Lemma test_legitimate_zero (Sample : Type)
    (evaluator_evaluate : Sample -> Z * Z * Z)
    (batches : list (list Sample)) (count : Z) :
  test_totals Sample evaluator_evaluate batches = (0, 0, count) ->
  count <> 0 ->
  exists uas las,
    test Sample evaluator_evaluate batches = Ok (uas, las) /\
    (uas == 0)%Q /\ (las == 0)%Q.
Proof.
  intros Htot Hcount. unfold test. rewrite Htot. unfold percent.
  destruct (Z.eqb_spec count 0) as [|_]; [done|]. simpl.
  eexists _, _. split; [done|].
  unfold Qdiv. rewrite !Qmult_0_l. done.
Qed.

(** ** The entry point [evaluate] *)

Section EvaluateFacts.

Context {Corpus : Type} (load_conllu : list read_event -> result Corpus)
  (eval_evaluate : Corpus -> Corpus -> result (gmap string Score)).

(** When [evaluate] returns, it returns the three-key dictionary built
    from the two F1 values. *)
Lemma evaluate_Ok fs gold_file system_file (m : gmap string Reported) :
  evaluate Corpus load_conllu eval_evaluate fs gold_file system_file = Ok m ->
  exists las uas : Score,
    m = <["LAS" := RFloat (f1 las)]> (
        <["UAS" := RFloat (f1 uas)]> (
        <["raw" := RStr ""]> ∅)) /\
    exists gf sf gold system scores,
      fs !! gold_file = Some gf /\ fs !! system_file = Some sf /\
      load_conllu gf = Ok gold /\ load_conllu sf = Ok system /\
      eval_evaluate gold system = Ok scores /\
      scores !! "LAS" = Some las /\ scores !! "UAS" = Some uas.
Proof.
  unfold evaluate, open_file, getitem.
  destruct (fs !! gold_file) as [gf|] eqn:Hgf; cbn [rbind]; [|discriminate].
  destruct (fs !! system_file) as [sf|] eqn:Hsf; cbn [rbind];
    [|discriminate].
  destruct (load_conllu gf) as [gold|] eqn:Hgold; cbn [rbind];
    [|discriminate].
  destruct (load_conllu sf) as [system|] eqn:Hsys; cbn [rbind];
    [|discriminate].
  destruct (eval_evaluate gold system) as [scores|] eqn:Hsc; cbn [rbind];
    [|discriminate].
  destruct (scores !! "LAS") as [las|] eqn:Hlas; cbn [rbind];
    [|discriminate].
  destruct (scores !! "UAS") as [uas|] eqn:Huas; cbn [rbind];
    [|discriminate].
  intros [= <-]. exists las, uas. split; [done|].
  by exists gf, sf, gold, system, scores.
Qed.

Lemma reported_keys (las uas : Q) :
  dom (<["LAS" := RFloat las]> (
       <["UAS" := RFloat uas]> (
       <["raw" := RStr ""]> (∅ : gmap string Reported))))
  = ({["LAS"; "UAS"; "raw"]} : gset string).
Proof. rewrite !dom_insert_L, dom_empty_L. set_solver. Qed.

End EvaluateFacts.

(** C10: for readable gold and system files, the mapping that [evaluate]
    returns (whatever the two functions of utils/eval.py are) has exactly
    the keys LAS, UAS and raw, and its raw is the empty string. *)
Theorem evaluate_three_keys (Corpus : Type)
    (load_conllu : list read_event -> result Corpus)
    (eval_evaluate : Corpus -> Corpus -> result (gmap string Score))
    (fs : gmap string (list read_event)) (gold_file system_file : string)
    (m : gmap string Reported) :
  is_Some (fs !! gold_file) -> is_Some (fs !! system_file) ->
  evaluate Corpus load_conllu eval_evaluate fs gold_file system_file = Ok m ->
  dom m = ({["LAS"; "UAS"; "raw"]} : gset string) /\
  m !! "raw" = Some (RStr "").
Proof.
  intros _ _ Hm. apply evaluate_Ok in Hm as (las & uas & -> & _).
  split; [apply reported_keys | reflexivity].
Qed.

Lemma sample_fs_evaluated :
  conllu_evaluate (fun _ => false) sample_fs "gold.conllu" "system.conllu"
  = Ok (<["LAS" := RFloat (3 # 3)]> (
        <["UAS" := RFloat (3 # 3)]> (
        <["raw" := RStr ""]> ∅))).
Proof. reflexivity. Qed.

Lemma evaluate_three_keys_witness :
  exists m,
    conllu_evaluate (fun _ => false) sample_fs "gold.conllu" "system.conllu"
    = Ok m /\
    dom m = ({["LAS"; "UAS"; "raw"]} : gset string) /\
    m !! "raw" = Some (RStr "").
Proof.
  eexists. split; [exact sample_fs_evaluated|].
  apply (evaluate_three_keys (list Sentence) UtilsEval.load_conllu
           (UtilsEval.evaluate (fun _ => false)) sample_fs
           "gold.conllu" "system.conllu").
  - eexists. reflexivity.
  - eexists. reflexivity.
  - exact sample_fs_evaluated.
Defined.

(** *** The scores over the model of utils/eval.py *)

Lemma add3_ordered (a b : Z * Z * Z) :
  counts_ordered a -> counts_ordered b -> counts_ordered (add3 a b).
Proof.
  destruct a as [[a1 a2] a3], b as [[b1 b2] b3].
  unfold counts_ordered, add3. simpl. lia.
Qed.

Lemma score_token_ordered ignore (g s : Token) :
  counts_ordered (UtilsEval.score_token ignore g s).
Proof.
  unfold UtilsEval.score_token, counts_ordered.
  repeat case_match; simpl; lia.
Qed.

Lemma score_tokens_ordered ignore (gold : list Token) : forall system c,
  UtilsEval.score_tokens ignore gold system = Ok c -> counts_ordered c.
Proof.
  induction gold as [|g gold IH]; intros [|s system] c; simpl; try discriminate.
  - intros [= <-]. unfold counts_ordered. simpl. lia.
  - destruct (UtilsEval.score_tokens ignore gold system) as [rest|] eqn:Hrest;
      cbn [rbind]; [|discriminate].
    intros [= <-]. apply add3_ordered; [apply score_token_ordered | eauto].
Qed.

Lemma score_corpus_ordered ignore (gold : list Sentence) : forall system c,
  UtilsEval.score_corpus ignore gold system = Ok c -> counts_ordered c.
Proof.
  induction gold as [|g gold IH]; intros [|s system] c; simpl; try discriminate.
  - intros [= <-]. unfold counts_ordered. simpl. lia.
  - destruct (UtilsEval.score_tokens ignore (tail g) (tail s)) as [here|]
      eqn:Hhere; cbn [rbind]; [|discriminate].
    destruct (UtilsEval.score_corpus ignore gold system) as [rest|] eqn:Hrest;
      cbn [rbind]; [|discriminate].
    intros [= <-]. apply add3_ordered; [|eauto].
    by eapply score_tokens_ordered.
Qed.

Lemma ratio_in_unit (x y : Z) :
  0 <= x -> x <= y -> 0 < y ->
  (0 <= inject_Z x / inject_Z y)%Q /\ (inject_Z x / inject_Z y <= 1)%Q.
Proof.
  intros Hx Hxy Hy.
  assert (inject_Z 0 < inject_Z y)%Q as Hy' by (by rewrite <- Zlt_Qlt).
  split.
  - apply Qle_shift_div_l; [exact Hy'|]. rewrite Qmult_0_l.
    change 0%Q with (inject_Z 0). by rewrite <- Zle_Qle.
  - apply Qle_shift_div_r; [exact Hy'|]. rewrite Qmult_1_l.
    by rewrite <- Zle_Qle.
Qed.

(** What the model of [eval.evaluate] returns. *)
Lemma utils_evaluate_Ok ignore (gold system : list Sentence)
    (scores : gmap string Score) :
  UtilsEval.evaluate ignore gold system = Ok scores ->
  exists unlabeled labeled scored,
    0 <= labeled /\ labeled <= unlabeled /\ unlabeled <= scored /\
    0 < scored /\
    scores !! "UAS" = Some (UtilsEval.metric unlabeled scored) /\
    scores !! "LAS" = Some (UtilsEval.metric labeled scored).
Proof.
  unfold UtilsEval.evaluate.
  destruct (UtilsEval.score_corpus ignore gold system) as [[[u l] n]|] eqn:Hc;
    cbn [rbind]; [|discriminate].
  apply score_corpus_ordered in Hc. unfold counts_ordered in Hc. simpl in Hc.
  destruct (Z.eqb_spec n 0) as [|Hn]; [discriminate|].
  intros [= <-]. exists u, l, n.
  repeat (split; [lia|]). split; reflexivity.
Qed.

(** C7 (as stated, it fails): the system file equal to the gold file, all
    three tokens right, is reported with a UAS of 1, the fraction, not with
    the percentage 100. *)
Lemma evaluate_reports_fraction :
  exists m uas,
    conllu_evaluate (fun _ => false) sample_fs "gold.conllu" "system.conllu"
    = Ok m /\
    m !! "UAS" = Some (RFloat uas) /\
    (uas == 1)%Q /\ ~ (uas == percentage 3 3)%Q.
Proof.
  eexists _, _. split; [exact sample_fs_evaluated|].
  split; [reflexivity|]. split; [reflexivity|].
  intros H. vm_compute in H. discriminate H.
Qed.

(** C7 (amended): the mapping that [evaluate] returns has the keys LAS, UAS
    and raw; its UAS and LAS are the F1 values of the evaluator, passed on
    as they are: the ratios of the correct tokens to the scored tokens,
    between 0 and 1, not multiplied by 100. *)
Theorem conllu_evaluate_ratios (ignore : Token -> bool)
    (fs : gmap string (list read_event)) (gold_file system_file : string)
    (m : gmap string Reported) :
  conllu_evaluate ignore fs gold_file system_file = Ok m ->
  dom m = ({["LAS"; "UAS"; "raw"]} : gset string) /\
  exists unlabeled labeled scored : Z,
    m !! "UAS" = Some (RFloat (inject_Z unlabeled / inject_Z scored)) /\
    m !! "LAS" = Some (RFloat (inject_Z labeled / inject_Z scored)) /\
    0 <= labeled /\ labeled <= unlabeled /\ unlabeled <= scored /\
    0 < scored /\
    (0 <= inject_Z unlabeled / inject_Z scored)%Q /\
    (inject_Z unlabeled / inject_Z scored <= 1)%Q /\
    (0 <= inject_Z labeled / inject_Z scored)%Q /\
    (inject_Z labeled / inject_Z scored <= 1)%Q.
Proof.
  intros Hm. unfold conllu_evaluate in Hm.
  apply evaluate_Ok in Hm
    as (las & uas & -> & gf & sf & gold & system & scores
        & _ & _ & _ & _ & Hscores & Hlas & Huas).
  split; [apply reported_keys|].
  apply utils_evaluate_Ok in Hscores
    as (u & l & n & Hl & Hlu & Hun & Hn & Hu' & Hl').
  rewrite Hu' in Huas. rewrite Hl' in Hlas.
  injection Huas as <-. injection Hlas as <-.
  exists u, l, n. split; [reflexivity|]. split; [reflexivity|].
  repeat (split; [lia|]).
  destruct (ratio_in_unit u n) as [? ?]; [lia..|].
  destruct (ratio_in_unit l n) as [? ?]; [lia..|].
  done.
Qed.

Lemma conllu_evaluate_ratios_witness :
  exists m,
    conllu_evaluate (fun _ => false) sample_fs "gold.conllu" "system.conllu"
    = Ok m /\
    dom m = ({["LAS"; "UAS"; "raw"]} : gset string).
Proof.
  eexists. split; [exact sample_fs_evaluated|].
  exact (proj1 (conllu_evaluate_ratios (fun _ => false) sample_fs
                  "gold.conllu" "system.conllu" _ sample_fs_evaluated)).
Defined.

(** ** The reader: failures *)

Lemma gen_seq_assoc {A} (g1 g2 g3 : gen A) :
  gen_seq (gen_seq g1 g2) g3 = gen_seq g1 (gen_seq g2 g3).
Proof.
  unfold gen_seq. destruct g1 as [y1 [e1|]], g2 as [y2 [e2|]]; simpl; try done.
  by rewrite <- app_assoc.
Qed.

Lemma yield_from_each_app {A B} (f : A -> gen B) (xs ys : list A) :
  yield_from_each f (xs ++ ys)
  = gen_seq (yield_from_each f xs) (yield_from_each f ys).
Proof.
  induction xs as [|x xs IH]; simpl.
  - unfold gen_seq. simpl. by destruct (yield_from_each f ys).
  - by rewrite IH, gen_seq_assoc.
Qed.








(** ** Writing, then reading back *)



(** *** Splitting what was joined *)

Lemma has_char_app (c : ascii) (s1 s2 : string) :
  has_char c (s1 ++ s2) = has_char c s1 || has_char c s2.
Proof.
  induction s1 as [|a s1 IH]; [done|].
  rewrite append_cons. cbn [has_char]. by rewrite IH, orb_assoc.
Qed.

Lemma has_char_cons_false (c a : ascii) (s : string) :
  has_char c (String a s) = false ->
  Ascii.eqb a c = false /\ has_char c s = false.
Proof. cbn [has_char]. by intros [? ?]%orb_false_elim. Qed.

Lemma append_snoc (cur : string) (a : ascii) (x : string) :
  (cur ++ String a "") ++ x = cur ++ String a x.
Proof. by rewrite append_assoc. Qed.

Lemma split_on_clean (c : ascii) (x : string) :
  has_char c x = false ->
  forall cur rest, split_on c cur (x ++ rest) = split_on c (cur ++ x) rest.
Proof.
  induction x as [|a x IH]; intros Hx cur rest.
  - by rewrite append_nil_l, append_nil_r.
  - apply has_char_cons_false in Hx as [Ha Hx].
    rewrite append_cons. cbn [split_on]. rewrite Ha.
    by rewrite IH, append_snoc.
Qed.

Lemma split_on_sep (c : ascii) (cur rest : string) :
  split_on c cur (String c "" ++ rest) = cur :: split_on c "" rest.
Proof.
  rewrite append_cons, append_nil_l. cbn [split_on].
  by rewrite Ascii.eqb_refl.
Qed.

Lemma split_on_concat (xs : list string) : forall x,
  Forall (fun y => has_char HT y = false) (x :: xs) ->
  split_on HT "" (String.concat TAB (x :: xs)) = x :: xs.
Proof.
  induction xs as [|y ys IH]; intros x Hxs.
  - cbn [String.concat]. inversion Hxs; subst.
    rewrite <- (append_nil_r x) at 1. rewrite split_on_clean by done.
    by rewrite append_nil_l.
  - cbn [String.concat]. inversion Hxs as [|? ? Hx Hrest]; subst.
    rewrite split_on_clean by done. rewrite append_nil_l.
    unfold TAB. fold HT. rewrite split_on_sep. f_equal. by apply IH.
Qed.

Lemma lines_from_clean (x : string) :
  has_char LF x = false ->
  forall cur rest, lines_from cur (x ++ rest) = lines_from (cur ++ x) rest.
Proof.
  induction x as [|a x IH]; intros Hx cur rest.
  - by rewrite append_nil_l, append_nil_r.
  - apply has_char_cons_false in Hx as [Ha Hx].
    rewrite append_cons. cbn [lines_from]. rewrite Ha.
    by rewrite IH, append_snoc.
Qed.

Lemma lines_from_NL (cur rest : string) :
  lines_from cur (NL ++ rest) = cur :: lines_from "" rest.
Proof.
  unfold NL. fold LF. rewrite append_cons, append_nil_l. cbn [lines_from].
  by rewrite Ascii.eqb_refl.
Qed.

(** The lines of a text made of terminated lines. *)
Lemma lines_from_terminated (ls : list string) :
  Forall (fun l => has_char LF l = false) ls ->
  lines_from "" (concat_strings (map (fun l => l ++ NL) ls)) = ls.
Proof.
  induction 1 as [|l ls Hl _ IH]; [done|].
  cbn [map concat_strings fold_right]. fold (concat_strings (map (fun l => l ++ NL) ls)).
  rewrite append_assoc, lines_from_clean by done.
  by rewrite append_nil_l, lines_from_NL, IH.
Qed.

Lemma universal_newlines_id (s : string) :
  has_char CR s = false -> universal_newlines s = s.
Proof.
  induction s as [|a s IH]; [done|]. intros [Ha Hs]%has_char_cons_false.
  cbn [universal_newlines]. rewrite Ha. by rewrite IH.
Qed.

(** *** The columns of a typed token *)




Lemma parse_int_value_int (n : Z) : parse_int_value (py_str (VInt n)) = VInt n.
Proof.
  unfold parse_int_value, py_str. rewrite NilZero.isi.
  - by rewrite DecimalZ.of_to.
  - destruct n as [|p|p]; [discriminate| |discriminate].
    intros [= H]. by apply (Unsigned.to_uint_nonnil p).
  - destruct n as [|p|p]; [discriminate|discriminate|].
    intros [= H]. by apply (Unsigned.to_uint_nonnil p).
Qed.



Lemma clean_no_char (s : string) :
  clean s = true ->
  has_char HT s = false /\ has_char LF s = false /\ has_char CR s = false.
Proof.
  unfold clean. intros [[H1 H2]%andb_prop H3]%andb_prop.
  by repeat split; apply negb_true_iff.
Qed.

Ltac elem_of_list := repeat first [by left | right].

Lemma typed_token_id (t : Token) :
  typed_token t = true -> exists n, t !! "id" = Some (VInt n) /\ n <> 0.
Proof.
  unfold typed_token. intros [[Hid _]%andb_prop _]%andb_prop.
  destruct (t !! "id") as [[|n|]|]; try discriminate.
  exists n. split; [done|]. intros ->. discriminate.
Qed.





(** *** The block of a typed sentence *)

Lemma has_char_concat (c : ascii) (xs : list string) :
  has_char c TAB = false ->
  Forall (fun x => has_char c x = false) xs ->
  has_char c (String.concat TAB xs) = false.
Proof.
  intros Hc. induction 1 as [|x xs Hx Hxs IH]; [done|].
  cbn [String.concat]. destruct xs as [|y ys]; [done|].
  by rewrite !has_char_app, Hx, Hc, IH.
Qed.





Lemma has_char_lines (c : ascii) (ls : list string) :
  has_char c NL = false ->
  Forall (fun l => has_char c l = false) ls ->
  has_char c (concat_strings (map (fun l => l ++ NL) ls)) = false.
Proof.
  intros Hc. induction 1 as [|l ls Hl _ IH]; [done|].
  cbn [map concat_strings fold_right].
  fold (concat_strings (map (fun l => l ++ NL) ls)).
  by rewrite !has_char_app, Hl, Hc, IH.
Qed.









(** What the conditions of the round trip exclude: a token numbered 0 is
    not written, so nothing is read back; a form that holds a tab is written
    as two columns, and the line read back is malformed. *)
Lemma round_trip_conditions :
  canonical zero_id_sentence /\
  read_back Conllu.parse_incr "out.conllu" zero_id_sentence = gen_done [] /\
  canonical tab_form_sentence /\
  raised (read_back Conllu.parse_incr "out.conllu" tab_form_sentence)
  = Some (ParseException
            ("1" ++ TAB ++ "a" ++ TAB ++ "b" ++ TAB ++ "a" ++ TAB ++ "b"
             ++ TAB ++ "X" ++ TAB ++ "_" ++ TAB ++ "_" ++ TAB ++ "0" ++ TAB
             ++ "root" ++ TAB ++ "_" ++ TAB ++ "_")).
Proof.
  split; [by exists (tail zero_id_sentence)|]. split; [reflexivity|].
  split; [by exists (tail tab_form_sentence)|]. reflexivity.
Qed.

(** * Further properties of the code *)

(** ** [parse_conll]: a token without id *)

Lemma collect_tokens_not_raw (tokenlist : list Token) : forall tokens,
  ~ raw_table tokenlist ->
  collect_tokens tokens tokenlist = Raise (KeyError "id").
Proof.
  induction tokenlist as [|token rest IH]; intros tokens Hbad.
  - destruct Hbad. constructor.
  - cbn [collect_tokens]. destruct (token !! "id") as [v|] eqn:Hv; [|done].
    apply IH. intros Hrest. apply Hbad. constructor; [by exists v | done].
Qed.

Lemma raw_table_dec (tokenlist : list Token) :
  raw_table tokenlist \/ ~ raw_table tokenlist.
Proof.
  unfold raw_table, has_id.
  destruct (decide (Forall (fun t : Token => is_Some (t !! "id")) tokenlist));
    [by left | by right].
Qed.

Lemma not_raw_table (tokenlist : list Token) :
  ~ raw_table tokenlist
  <-> exists token, token ∈ tokenlist /\ token !! "id" = None.
Proof.
  split.
  - intros Hnot. induction tokenlist as [|t rest IH].
    + destruct Hnot. constructor.
    + destruct (t !! "id") as [v|] eqn:Hv.
      * destruct IH as (t' & Ht' & Hid).
        { intros Hrest. apply Hnot. constructor; [by exists v | done]. }
        exists t'. split; [by right | done].
      * exists t. split; [by left | done].
  - intros (t & Ht & Hid) Hraw.
    apply list_elem_of_In in Ht.
    apply (proj1 (List.Forall_forall _ _) Hraw) in Ht as [v Hv].
    congruence.
Qed.

Lemma parse_conll_no_id (tokenlist : list Token) :
  (exists token, token ∈ tokenlist /\ token !! "id" = None) ->
  parse_conll tokenlist = gen_raise (KeyError "id").
Proof.
  intros Hbad%not_raw_table. unfold parse_conll.
  by rewrite collect_tokens_not_raw.
Qed.

(** X1: [parse_conll] raises [KeyError] for the key id exactly when some
    token of the table has no id, and then it yields no sentence, also when
    tokens with an integer id come before the faulty one; on every other
    table it ends without an exception. *)
Theorem parse_conll_missing_id (tokenlist : list Token) :
  (parse_conll tokenlist = gen_raise (KeyError "id")
   <-> exists token, token ∈ tokenlist /\ token !! "id" = None) /\
  (raised (parse_conll tokenlist) = None <-> raw_table tokenlist).
Proof.
  destruct (raw_table_dec tokenlist) as [Hraw | Hnot].
  - pose proof (parse_conll_raw tokenlist Hraw) as Hp.
    assert (raised (parse_conll tokenlist) = None) as Hnone.
    { rewrite Hp. by destruct (List.filter int_id tokenlist). }
    split; split; try done.
    + intros Hr. rewrite Hr in Hnone. discriminate.
    + intros Hex. by apply not_raw_table in Hex.
  - pose proof (proj1 (not_raw_table tokenlist) Hnot) as Hex.
    pose proof (parse_conll_no_id tokenlist Hex) as Hp.
    split; split; try done.
    rewrite Hp. discriminate.
Qed.

(** X2: parsing the tokens that follow the root of a canonical sentence
    gives the sentence back; parsing the canonical sentence itself keeps its
    root as a token (its id is the integer 0) and puts a second root before
    it. *)
Theorem parse_conll_again (s : Sentence) :
  canonical s ->
  parse_conll (tail s) = gen_done [s] /\
  parse_conll s = gen_done [_create_root :: s].
Proof.
  intros (real & -> & Hne & Hreal)%canonical_inv. cbn [tail].
  assert (Forall has_id real) as Hid.
  { eapply Forall_impl; [exact Hreal | apply int_id_has_id]. }
  split.
  - rewrite parse_conll_raw by done. rewrite filter_int_id_id by done.
    by destruct real.
  - rewrite parse_conll_raw by (constructor; [by eexists | done]).
    cbn [List.filter]. change (int_id _create_root) with true. cbv iota.
    by rewrite filter_int_id_id.
Qed.

Lemma parse_conll_again_witness :
  canonical sample_sentence /\
  parse_conll (tail sample_sentence) = gen_done [sample_sentence] /\
  parse_conll sample_sentence = gen_done [_create_root :: sample_sentence].
Proof.
  assert (canonical sample_sentence) as Hc.
  { exists sample_table. by rewrite sample_table_parsed. }
  split; [exact Hc|]. exact (parse_conll_again sample_sentence Hc).
Defined.

Example faulty_table_raises :
  parse_conll faulty_table = gen_raise (KeyError "id").
Proof. reflexivity. Qed.

(** ** [dump_conll]: what is written, and when *)

(** The writer is only appended to. *)
Lemma dump_tokens_writer (tokens : Sentence) : forall writer,
  dump_tokens writer tokens
  = (writer ++ (dump_tokens "" tokens).1, (dump_tokens "" tokens).2).
Proof.
  induction tokens as [|token rest IH]; intros writer; cbn [dump_tokens].
  - cbn [fst snd]. by rewrite append_nil_r.
  - destruct (token !! "id") as [v|]; [|cbn [fst snd]; by rewrite append_nil_r].
    destruct (id_is_zero v); [apply IH|].
    rewrite IH, (IH ("" ++ token_line token)). cbn [fst snd].
    by rewrite append_nil_l, append_assoc.
Qed.

Lemma dump_docs_writer (docs : list Sentence) : forall writer,
  dump_docs writer docs
  = (writer ++ (dump_docs "" docs).1, (dump_docs "" docs).2).
Proof.
  induction docs as [|tokens rest IH]; intros writer; cbn [dump_docs].
  - cbn [fst snd]. by rewrite append_nil_r.
  - rewrite (dump_tokens_writer tokens writer).
    rewrite (dump_tokens_writer tokens "").
    destruct (dump_tokens "" tokens) as [w [e|]]; cbn [fst snd].
    + by rewrite append_nil_l.
    + rewrite IH, (IH (("" ++ w) ++ NL)). cbn [fst snd].
      by rewrite !append_nil_l, !append_assoc.
Qed.

Lemma dump_tokens_app (tokens1 tokens2 : Sentence) : forall writer,
  dump_tokens writer (tokens1 ++ tokens2)
  = match dump_tokens writer tokens1 with
    | (w, Some e) => (w, Some e)
    | (w, None) => dump_tokens w tokens2
    end.
Proof.
  induction tokens1 as [|token rest IH]; intros writer;
    cbn [app dump_tokens]; [done|].
  destruct (token !! "id") as [v|]; [|done].
  destruct (id_is_zero v); apply IH.
Qed.

Lemma dump_docs_app (docs1 docs2 : list Sentence) : forall writer,
  dump_docs writer (docs1 ++ docs2)
  = match dump_docs writer docs1 with
    | (w, Some e) => (w, Some e)
    | (w, None) => dump_docs w docs2
    end.
Proof.
  induction docs1 as [|tokens rest IH]; intros writer;
    cbn [app dump_docs]; [done|].
  destruct (dump_tokens writer tokens) as [w [e|]]; [done | apply IH].
Qed.

(** X3: the writer only appends.  The text written for a corpus in two
    parts is the text of the first part followed by the text of the second,
    with the outcome of the second; when the first part raises, nothing of
    the second part is written. *)
Theorem dump_conll_app (docs1 docs2 : list Sentence) :
  dump_conll (docs1 ++ docs2)
  = match dump_conll docs1 with
    | (w, Some e) => (w, Some e)
    | (w, None) => (w ++ (dump_conll docs2).1, (dump_conll docs2).2)
    end.
Proof.
  unfold dump_conll. rewrite dump_docs_app.
  destruct (dump_docs "" docs1) as [w [e|]]; [done|].
  apply dump_docs_writer.
Qed.

Lemma dump_tokens_real (tokens : Sentence) : forall writer,
  dump_tokens writer (real_tokens tokens) = dump_tokens writer tokens.
Proof.
  unfold real_tokens.
  induction tokens as [|token rest IH]; intros writer; [done|].
  cbn [List.filter dump_tokens]. unfold token_get at 1.
  destruct (token !! "id") as [v|] eqn:Hv.
  - destruct (id_is_zero v) eqn:Hz; cbn [negb]; [apply IH|].
    cbn [dump_tokens]. rewrite Hv, Hz. apply IH.
  - cbn [id_is_zero negb dump_tokens]. by rewrite Hv.
Qed.

(** X4: the tokens whose id is 0 leave no trace in the output: the writer
    writes the same text, and raises or not in the same way, for the
    sentences and for the sentences without their id-0 tokens.  A sentence
    that is the root alone is written as one blank line. *)
Theorem dump_conll_real_tokens (docs : list Sentence) :
  dump_conll (map real_tokens docs) = dump_conll docs /\
  dump_conll (docs ++ [[_create_root]])
  = match dump_conll docs with
    | (w, Some e) => (w, Some e)
    | (w, None) => (w ++ NL, None)
    end.
Proof.
  split.
  - unfold dump_conll. generalize "".
    induction docs as [|tokens rest IH]; intros writer; [done|].
    cbn [map dump_docs]. rewrite dump_tokens_real.
    destruct (dump_tokens writer tokens) as [w [e|]]; [done | apply IH].
  - unfold dump_conll. rewrite dump_docs_app.
    destruct (dump_docs "" docs) as [w [e|]]; [done|]. reflexivity.
Qed.

(** X5: a token without id makes the writer raise [KeyError] for the key
    id; the blocks of the sentences before it and the lines of the tokens
    before it in its sentence have been written, the blank line of its
    sentence and everything after it have not. *)
Theorem dump_conll_missing_id (good : list Sentence) (before : Sentence)
    (bad : Token) (after : Sentence) (more : list Sentence) :
  Forall (Forall has_id) good -> Forall has_id before ->
  bad !! "id" = None ->
  dump_conll (good ++ (before ++ bad :: after)%list :: more)
  = (concat_strings (map sentence_block good) ++ sentence_lines before,
     Some (KeyError "id")).
Proof.
  intros Hgood Hbefore Hbad. unfold dump_conll.
  rewrite dump_docs_app, dump_docs_has_id by done. cbn [dump_docs].
  rewrite dump_tokens_app, dump_tokens_has_id by done.
  cbn [dump_tokens]. rewrite Hbad. by rewrite append_nil_l.
Qed.

Lemma dump_conll_missing_id_witness :
  dump_conll faulty_docs
  = (concat_strings (map sentence_block [sample_sentence])
     ++ sentence_lines
          [_create_root; mk_token (VInt 1) "ven" "VERB" (VInt 0) "root"],
     Some (KeyError "id")).
Proof.
  apply (dump_conll_missing_id [sample_sentence]
           [_create_root; mk_token (VInt 1) "ven" "VERB" (VInt 0) "root"]
           no_id_token
           [mk_token (VInt 2) "." "PUNCT" (VInt 1) "punct"]
           [sample_sentence]).
  - repeat constructor; by eexists.
  - repeat constructor; by eexists.
  - reflexivity.
Defined.

(** *** The text splits back into rows and columns *)

Lemma sentence_block_rows (s : Sentence) :
  sentence_block s = concat_strings (map (fun l => l ++ NL) (block_rows s)).
Proof.
  unfold sentence_block, block_rows.
  rewrite map_app, concat_strings_app, map_map.
  cbn [map concat_strings fold_right].
  by rewrite append_nil_l, append_nil_r.
Qed.

Lemma blocks_rows (docs : list Sentence) :
  concat_strings (map sentence_block docs)
  = concat_strings (map (fun l => l ++ NL) (flat_map block_rows docs)).
Proof.
  induction docs as [|s docs IH]; [done|].
  cbn [map flat_map]. rewrite map_app, concat_strings_app, <- IH.
  by rewrite <- sentence_block_rows.
Qed.

Lemma clean_cols_row (t : Token) :
  clean_cols t = true ->
  split_on HT "" (token_row t) = cols t /\
  has_char LF (token_row t) = false /\ has_char CR (token_row t) = false.
Proof.
  unfold clean_cols. rewrite forallb_forall, <- List.Forall_forall.
  intros Hclean. unfold token_row. split; [|split].
  - unfold cols, attrs in Hclean |- *. cbn [map] in Hclean |- *.
    apply split_on_concat. eapply Forall_impl; [exact Hclean|].
    intros x Hx. by apply clean_no_char in Hx as (? & _ & _).
  - apply has_char_concat; [done|]. eapply Forall_impl; [exact Hclean|].
    intros x Hx. by apply clean_no_char in Hx as (_ & ? & _).
  - apply has_char_concat; [done|]. eapply Forall_impl; [exact Hclean|].
    intros x Hx. by apply clean_no_char in Hx as (_ & _ & ?).
Qed.

(** The lines of what the writer wrote, as text mode reads them. *)
Lemma written_lines (docs : list Sentence) :
  Forall (Forall has_id) docs ->
  Forall (fun s => Forall (fun t => clean_cols t = true) (real_tokens s)) docs ->
  text_file (dump_conll docs).1 = map Line (flat_map block_rows docs).
Proof.
  intros Hid Hclean.
  assert (Forall (fun l => has_char LF l = false /\ has_char CR l = false)
            (flat_map block_rows docs)) as Hrows.
  { clear Hid. induction Hclean as [|s docs Hs _ IH]; [constructor|].
    cbn [flat_map]. apply Forall_app. split; [|exact IH].
    unfold block_rows. apply Forall_app. split; [|by repeat constructor].
    apply Forall_map. eapply Forall_impl; [exact Hs|].
    intros t Ht. by apply clean_cols_row in Ht as (_ & ? & ?). }
  unfold dump_conll. rewrite dump_docs_has_id by done. cbn [fst].
  rewrite append_nil_l, blocks_rows. unfold text_file. f_equal.
  rewrite universal_newlines_id.
  - apply lines_from_terminated. eapply Forall_impl; [exact Hrows|].
    by intros l [? _].
  - apply has_char_lines; [done|]. eapply Forall_impl; [exact Hrows|].
    by intros l [_ ?].
Qed.

(** X6: when no column written holds a tab, a line feed or a carriage
    return, the text of the writer splits back without ambiguity: read in
    text mode, its lines are, sentence by sentence, the rows of the real
    tokens followed by one empty line, and every row splits at the tabs
    into exactly the ten columns of its token. *)
Theorem dump_conll_splits (docs : list Sentence) :
  Forall (Forall has_id) docs ->
  Forall (fun s => Forall (fun t => clean_cols t = true) (real_tokens s)) docs ->
  text_file (dump_conll docs).1 = map Line (flat_map block_rows docs) /\
  forall s t, s ∈ docs -> t ∈ real_tokens s ->
    split_on HT "" (token_row t) = cols t /\ length (cols t) = 10%nat.
Proof.
  intros Hid Hclean. split; [by apply written_lines|].
  intros s t Hs Ht. split; [|reflexivity].
  apply list_elem_of_In in Hs.
  apply (proj1 (List.Forall_forall _ _) Hclean) in Hs.
  apply list_elem_of_In in Ht.
  apply (proj1 (List.Forall_forall _ _) Hs) in Ht.
  by apply clean_cols_row in Ht as (? & _).
Qed.

Lemma dump_conll_splits_witness :
  text_file (dump_conll [sample_sentence; sample_sentence]).1
  = map Line (flat_map block_rows [sample_sentence; sample_sentence]).
Proof.
  apply (dump_conll_splits [sample_sentence; sample_sentence]).
  - repeat constructor; by eexists.
  - repeat constructor.
Defined.

(** ** [read_conll]: whatever the tokenizer *)

Lemma table_sentences_parsed (tokenlist : list Token) :
  raw_table tokenlist ->
  parse_conll tokenlist = gen_done (table_sentences tokenlist).
Proof.
  intros Hraw. rewrite parse_conll_raw by done. unfold table_sentences.
  by destruct (List.filter int_id tokenlist).
Qed.

Lemma yield_from_each_raw (tables : list (list Token)) :
  Forall raw_table tables ->
  yield_from_each parse_conll tables = gen_done (sentences_of tables).
Proof.
  induction 1 as [|t tables Ht _ IH]; [done|].
  cbn [yield_from_each sentences_of flat_map].
  rewrite table_sentences_parsed by done. rewrite IH. reflexivity.
Qed.

(** X7: whatever the tokenizer, when the tables it yields are raw tables
    the reader yields, in the order of the tables, one sentence for each
    table that has an integer-id token (the root followed by those tokens)
    and nothing for the other tables; it ends as the tokenizer ends, with
    its exception if it raised one, after these sentences. *)
Theorem read_conll_tables
    (parse_incr : list read_event -> gen (list Token))
    (fs : gmap string (list read_event)) (file_path : string)
    (f : list read_event) :
  fs !! file_path = Some f ->
  Forall raw_table (yielded (parse_incr f)) ->
  read_conll parse_incr fs file_path
  = Gen (sentences_of (yielded (parse_incr f))) (raised (parse_incr f)).
Proof.
  intros Hf Hraw. unfold read_conll. rewrite Hf. unfold gen_for.
  rewrite yield_from_each_raw by done.
  unfold gen_seq, gen_done. cbn [raised yielded]. by rewrite app_nil_r.
Qed.

Lemma two_block_tables :
  exists f, two_block_fs !! "two.conllu" = Some f /\
    Forall raw_table (yielded (Conllu.parse_incr f)) /\
    length (yielded (Conllu.parse_incr f)) = 2%nat.
Proof.
  eexists. split; [reflexivity|]. split; [|reflexivity].
  repeat constructor; by eexists.
Qed.

Lemma read_conll_tables_witness :
  read_conll Conllu.parse_incr two_block_fs "two.conllu"
  = gen_done [sample_sentence_read].
Proof.
  destruct two_block_tables as (f & Hf & Hraw & _).
  rewrite (read_conll_tables Conllu.parse_incr two_block_fs "two.conllu" f
             Hf Hraw).
  assert (Some f = Some (text_file
            (sample_text ++ "1-2" ++ TAB ++ "vamonos" ++ TAB ++ "_" ++ TAB
             ++ "_" ++ TAB ++ "_" ++ TAB ++ "_" ++ TAB ++ "_" ++ TAB ++ "_"
             ++ TAB ++ "_" ++ TAB ++ "_" ++ NL ++ NL))) as [= ->]
    by (rewrite <- Hf; reflexivity).
  reflexivity.
Defined.

(** X8: whatever the tokenizer, when a table has a token without id the
    reader yields the sentences of the tables before it and raises
    [KeyError] for the key id; the tables after it are not looked at, and
    the way the tokenizer ends does not show. *)
Theorem read_conll_missing_id
    (parse_incr : list read_event -> gen (list Token))
    (fs : gmap string (list read_event)) (file_path : string)
    (f : list read_event) (good : list (list Token)) (bad : list Token)
    (rest : list (list Token)) :
  fs !! file_path = Some f ->
  yielded (parse_incr f) = (good ++ bad :: rest)%list ->
  Forall raw_table good ->
  (exists token, token ∈ bad /\ token !! "id" = None) ->
  read_conll parse_incr fs file_path
  = Gen (sentences_of good) (Some (KeyError "id")).
Proof.
  intros Hf Hy Hgood Hbad. unfold read_conll. rewrite Hf. unfold gen_for.
  rewrite Hy, yield_from_each_app, yield_from_each_raw by done.
  cbn [yield_from_each].
  rewrite (parse_conll_no_id bad Hbad).
  unfold gen_seq, gen_done, gen_raise. cbn [raised yielded].
  by rewrite app_nil_r.
Qed.

Lemma read_conll_missing_id_witness :
  read_conll faulty_parse_incr sample_fs "gold.conllu"
  = Gen [sample_sentence] (Some (KeyError "id")).
Proof.
  eapply (read_conll_missing_id faulty_parse_incr sample_fs "gold.conllu"
            _ [sample_table] faulty_table [sample_table]).
  - reflexivity.
  - reflexivity.
  - repeat constructor; by eexists.
  - exists no_id_token. split; [|reflexivity]. unfold faulty_table.
    elem_of_list.
Defined.

(** ** [evaluate]: which exception comes first *)

Section EvaluateErrors.

Context {Corpus : Type} (load_conllu : list read_event -> result Corpus)
  (eval_evaluate : Corpus -> Corpus -> result (gmap string Score))
  (fs : gmap string (list read_event)) (gold_file system_file : string).

Lemma evaluate_no_gold :
  fs !! gold_file = None ->
  evaluate Corpus load_conllu eval_evaluate fs gold_file system_file
  = Raise (OSError gold_file).
Proof. intros H. unfold evaluate, open_file. by rewrite H. Qed.

Lemma evaluate_no_system (gf : list read_event) :
  fs !! gold_file = Some gf -> fs !! system_file = None ->
  evaluate Corpus load_conllu eval_evaluate fs gold_file system_file
  = Raise (OSError system_file).
Proof. intros Hg Hs. unfold evaluate, open_file. by rewrite Hg, Hs. Qed.

Lemma evaluate_opened (gf sf : list read_event) :
  fs !! gold_file = Some gf -> fs !! system_file = Some sf ->
  evaluate Corpus load_conllu eval_evaluate fs gold_file system_file
  = (gold <- load_conllu gf;;
     system <- load_conllu sf;;
     scores <- eval_evaluate gold system;;
     las <- getitem scores "LAS";;
     uas <- getitem scores "UAS";;
     Ok (<["LAS" := RFloat (f1 las)]> (
         <["UAS" := RFloat (f1 uas)]> (
         <["raw" := RStr ""]> ∅)))).
Proof. intros Hg Hs. unfold evaluate, open_file. by rewrite Hg, Hs. Qed.

End EvaluateErrors.

(** X9: [evaluate] opens the gold file first: when it cannot be opened the
    exception names the gold file, whatever the system file; when only the
    system file cannot be opened the exception names the system file.  In
    both cases nothing is loaded or scored: the outcome is the same for any
    two functions of utils/eval.py. *)
Theorem evaluate_open_failure (Corpus : Type)
    (load_conllu : list read_event -> result Corpus)
    (eval_evaluate : Corpus -> Corpus -> result (gmap string Score))
    (fs : gmap string (list read_event)) (gold_file system_file : string) :
  (fs !! gold_file = None ->
   evaluate Corpus load_conllu eval_evaluate fs gold_file system_file
   = Raise (OSError gold_file)) /\
  (is_Some (fs !! gold_file) -> fs !! system_file = None ->
   evaluate Corpus load_conllu eval_evaluate fs gold_file system_file
   = Raise (OSError system_file)).
Proof.
  split; [apply evaluate_no_gold|].
  intros [gf Hg] Hs. by eapply evaluate_no_system.
Qed.

Lemma evaluate_open_failure_witness :
  conllu_evaluate (fun _ => false) sample_fs "dev.conllu" "test.conllu"
  = Raise (OSError "dev.conllu") /\
  conllu_evaluate (fun _ => false) sample_fs "gold.conllu" "test.conllu"
  = Raise (OSError "test.conllu").
Proof.
  split.
  - apply (proj1 (evaluate_open_failure (list Sentence) UtilsEval.load_conllu
                    (UtilsEval.evaluate (fun _ => false)) sample_fs
                    "dev.conllu" "test.conllu")).
    reflexivity.
  - apply (proj2 (evaluate_open_failure (list Sentence) UtilsEval.load_conllu
                    (UtilsEval.evaluate (fun _ => false)) sample_fs
                    "gold.conllu" "test.conllu")).
    + eexists. reflexivity.
    + reflexivity.
Defined.

(** X10: with both files open, [evaluate] passes on the first exception
    among: loading the gold file, loading the system file, scoring, the
    missing key LAS, the missing key UAS, in this order.  So the gold file
    is loaded before the system file, and a result without LAS is reported
    as the missing key LAS also when UAS is missing too. *)
Theorem evaluate_first_failure (Corpus : Type)
    (load_conllu : list read_event -> result Corpus)
    (eval_evaluate : Corpus -> Corpus -> result (gmap string Score))
    (fs : gmap string (list read_event)) (gold_file system_file : string)
    (gf sf : list read_event) :
  fs !! gold_file = Some gf -> fs !! system_file = Some sf ->
  let run :=
    evaluate Corpus load_conllu eval_evaluate fs gold_file system_file in
  (forall e, load_conllu gf = Raise e -> run = Raise e) /\
  (forall gold e,
     load_conllu gf = Ok gold -> load_conllu sf = Raise e -> run = Raise e) /\
  (forall gold system e,
     load_conllu gf = Ok gold -> load_conllu sf = Ok system ->
     eval_evaluate gold system = Raise e -> run = Raise e) /\
  (forall gold system scores,
     load_conllu gf = Ok gold -> load_conllu sf = Ok system ->
     eval_evaluate gold system = Ok scores ->
     (scores !! "LAS" = None -> run = Raise (KeyError "LAS")) /\
     (is_Some (scores !! "LAS") -> scores !! "UAS" = None ->
      run = Raise (KeyError "UAS"))).
Proof.
  intros Hg Hs run. subst run. rewrite (evaluate_opened _ _ _ _ _ gf sf Hg Hs).
  split; [|split; [|split]].
  - by intros e ->.
  - intros gold e -> Hsys. cbn [rbind]. by rewrite Hsys.
  - intros gold system e -> Hsys Hsc. cbn [rbind]. rewrite Hsys. cbn [rbind].
    by rewrite Hsc.
  - intros gold system scores -> Hsys Hsc. cbn [rbind]. rewrite Hsys.
    cbn [rbind]. rewrite Hsc. cbn [rbind]. unfold getitem. split.
    + by intros ->.
    + intros [las ->] Huas. cbn [rbind]. by rewrite Huas.
Qed.

Lemma evaluate_first_failure_witness :
  evaluate (list Sentence) UtilsEval.load_conllu no_scores sample_fs
    "gold.conllu" "system.conllu"
  = Raise (KeyError "LAS").
Proof.
  destruct (evaluate_first_failure (list Sentence) UtilsEval.load_conllu
              no_scores sample_fs "gold.conllu" "system.conllu"
              (text_file sample_text) (text_file sample_text)
              eq_refl eq_refl) as (_ & _ & _ & H).
  apply (H [sample_sentence_read] [sample_sentence_read] ∅);
    reflexivity.
Defined.

(** ** [test]: batching, order and range *)


Section TestInvariance.

Context {Sample : Type} (ev : Sample -> Z * Z * Z).

Lemma test_totals_cons (x : Sample) (batch : list Sample) :
  test_totals Sample ev [x :: batch]
  = add3 (ev x) (test_totals Sample ev [batch]).
Proof.
  unfold test_totals. cbn [fold_left]. rewrite fold_accumulate.
  unfold accumulate. by rewrite add3_zero_l.
Qed.

Lemma test_totals_one_batch (b1 b2 : list Sample) :
  test_totals Sample ev [(b1 ++ b2)%list]
  = add3 (test_totals Sample ev [b1]) (test_totals Sample ev [b2]).
Proof.
  induction b1 as [|x b1 IH].
  - cbn [app]. unfold test_totals at 2. cbn [fold_left].
    by rewrite add3_zero_l.
  - cbn [app]. by rewrite !test_totals_cons, IH, add3_assoc.
Qed.

Lemma test_totals_concat (batches : list (list Sample)) :
  test_totals Sample ev batches = test_totals Sample ev [concat batches].
Proof.
  induction batches as [|b batches IH]; [done|].
  cbn [concat]. rewrite test_totals_one_batch, <- IH.
  apply (test_totals_app ev [b] batches).
Qed.


End TestInvariance.



Lemma score_position_ordered (p : Position) :
  counts_ordered (score_position p).
Proof.
  unfold score_position, counts_ordered.
  destruct (ignored p); [simpl; lia|].
  destruct (pred_arc p =? gold_arc p); [|simpl; lia].
  destruct (pred_label p =? gold_label p); simpl; lia.
Qed.

Lemma score_sentence_ordered (s : list Position) :
  counts_ordered (score_sentence s).
Proof.
  unfold score_sentence. induction s as [|p s IH]; cbn [fold_right].
  - unfold counts_ordered. simpl. lia.
  - apply add3_ordered; [apply score_position_ordered | exact IH].
Qed.

Lemma test_totals_ordered {Sample : Type} (ev : Sample -> Z * Z * Z)
    (batches : list (list Sample)) :
  (forall x, counts_ordered (ev x)) ->
  counts_ordered (test_totals Sample ev batches).
Proof.
  intros Hev. rewrite test_totals_concat.
  induction (concat batches) as [|x l IH].
  - unfold counts_ordered. simpl. lia.
  - rewrite test_totals_cons. by apply add3_ordered.
Qed.

(** X12: when the evaluator returns, for every sentence, counts with
    0 <= labeled <= unlabeled <= scored, the totals are ordered in the same
    way, and when some token was scored [test] logs two scores with
    0 <= LAS <= UAS <= 100, which are 100 times the ratios of the totals. *)
Theorem test_scores_in_range (Sample : Type)
    (evaluator_evaluate : Sample -> Z * Z * Z)
    (batches : list (list Sample)) :
  (forall x, counts_ordered (evaluator_evaluate x)) ->
  (test_totals Sample evaluator_evaluate batches).2 <> 0 ->
  exists UAS LAS count uas las,
    test_totals Sample evaluator_evaluate batches = (UAS, LAS, count) /\
    0 <= LAS /\ LAS <= UAS /\ UAS <= count /\
    test Sample evaluator_evaluate batches = Ok (uas, las) /\
    (uas == inject_Z UAS / inject_Z count * 100)%Q /\
    (las == inject_Z LAS / inject_Z count * 100)%Q /\
    (0 <= las)%Q /\ (las <= uas)%Q /\ (uas <= 100)%Q.
Proof.
  intros Hev Hcount.
  pose proof (test_totals_ordered evaluator_evaluate batches Hev) as Hord.
  unfold test.
  destruct (test_totals Sample evaluator_evaluate batches)
    as [[UAS LAS] count].
  unfold counts_ordered in Hord. simpl in Hord, Hcount.
  destruct Hord as (H0 & Hlu & Huc).
  assert (0 < count) as Hpos by lia.
  unfold percent. destruct (Z.eqb_spec count 0) as [|_]; [done|].
  cbn [rbind]. eexists UAS, LAS, count, _, _.
  split; [done|]. repeat (split; [lia|]). split; [done|].
  split; [reflexivity|]. split; [reflexivity|].
  assert (inject_Z 0 < inject_Z count)%Q as Hc by (by rewrite <- Zlt_Qlt).
  assert (/ inject_Z count * 100 >= 0)%Q as Hk.
  { apply Qmult_le_0_compat; [|done]. by apply Qlt_le_weak, Qinv_lt_0_compat. }
  unfold Qdiv. rewrite <- !Qmult_assoc. split; [|split].
  - apply Qmult_le_0_compat; [|exact Hk].
    change 0%Q with (inject_Z 0). by rewrite <- Zle_Qle.
  - apply Qmult_le_compat_r; [|exact Hk]. by rewrite <- Zle_Qle.
  - apply Qle_trans with (inject_Z count * (/ inject_Z count * 100))%Q.
    + apply Qmult_le_compat_r; [|exact Hk]. by rewrite <- Zle_Qle.
    + rewrite Qmult_assoc, Qmult_inv_r, Qmult_1_l; [apply Qle_refl|].
      intros Hz. rewrite Hz in Hc. by apply Qlt_irrefl in Hc.
Qed.

Lemma test_scores_in_range_witness :
  exists uas las,
    test (list Position) score_sentence [[half_right; arcs_right]]
    = Ok (uas, las) /\
    (0 <= las)%Q /\ (las <= uas)%Q /\ (uas <= 100)%Q.
Proof.
  destruct (test_scores_in_range (list Position) score_sentence
              [[half_right; arcs_right]] score_sentence_ordered)
    as (UAS & LAS & count & uas & las & _ & _ & _ & _ & Ht & _ & _ & H);
    [by vm_compute|].
  exists uas, las. split; [exact Ht | exact H].
Defined.

(** ** The loop of [test] in detail *)

Section TestLoopFacts.

Context (parser_parse :
           list (list Z) -> list (list Z) -> list (list Z) * list (list Z))
  (create_ignore_mask : list Z -> list Z -> list bool)
  (evaluate_sentence :
     list Z -> list Z -> list Z -> list Z -> list bool -> Z * Z * Z)
  (get_sentence : list Z -> list string)
  (pos_lookup label_lookup : Z -> string).

Local Abbreviation sentences :=
  (test_sentences create_ignore_mask evaluate_sentence get_sentence
     pos_lookup label_lookup).
Local Abbreviation batches_loop :=
  (test_batches parser_parse create_ignore_mask evaluate_sentence get_sentence
     pos_lookup label_lookup).
Local Abbreviation score :=
  (evaluate_sample create_ignore_mask evaluate_sentence).

(** The accumulators and the exception of the inner loop. *)
Lemma test_sentences_spec (decode : bool) (b : Batch)
    (items : list (list Z * list Z * list Z * list Z)) :
  forall i out acc,
    (sentences decode b i items out acc).1.2
    = fold_left (accumulate _ score)
        (zip (zip (drop i (word_tokens b)) (drop i (pos_tokens b))) items)
        acc /\
    (sentences decode b i items out acc).2
    = if decide ((length items <= length (drop i (word_tokens b)))%nat /\
                 (length items <= length (drop i (pos_tokens b)))%nat)
      then None else Some IndexError.
Proof.
  induction items as [|[[[pa pl] ta] tl] items IH]; intros i out acc.
  - cbn [test_sentences fst snd length]. rewrite zip_with_nil_r.
    split; [done|]. rewrite decide_True; [done | lia].
  - cbn [test_sentences].
    destruct (word_tokens b !! i) as [w|] eqn:Hw.
    + destruct (pos_tokens b !! i) as [p|] eqn:Hp.
      * rewrite (drop_S _ _ _ Hw), (drop_S _ _ _ Hp).
        cbn [zip_with fold_left length].
        destruct (IH (S i)
                    (if decode
                     then out ++ decode_sentence pos_lookup label_lookup
                                   (get_sentence w) p pa pl
                     else out)
                    (add3 acc (evaluate_sentence pa pl ta tl
                                 (create_ignore_mask w p))))
          as [Hacc Herr].
        split; [exact Hacc|]. rewrite Herr.
        repeat case_decide; try done; lia.
      * apply lookup_ge_None in Hp. rewrite (drop_ge (pos_tokens b)) by done.
        cbn [fst snd]. rewrite zip_with_nil_r. cbn [zip_with fold_left].
        split; [done|]. rewrite decide_False; [done|]. cbn [length]. lia.
    + apply lookup_ge_None in Hw. rewrite (drop_ge (word_tokens b)) by done.
      cbn [fst snd zip_with fold_left].
      split; [done|]. rewrite decide_False; [done|]. cbn [length]. lia.
Qed.

(** The inner loop reads the batch through its words and tags only. *)
Lemma test_sentences_ext (decode : bool) (b b' : Batch)
    (items : list (list Z * list Z * list Z * list Z)) :
  word_tokens b = word_tokens b' -> pos_tokens b = pos_tokens b' ->
  forall i out acc,
    sentences decode b i items out acc = sentences decode b' i items out acc.
Proof.
  intros Hw Hp.
  induction items as [|[[[pa pl] ta] tl] items IH]; intros i out acc; [done|].
  cbn [test_sentences]. rewrite Hw, Hp.
  destruct (word_tokens b' !! i); [|done].
  destruct (pos_tokens b' !! i); [|done]. apply IH.
Qed.

(** Without [decode] nothing is printed, and [decode] changes neither the
    accumulators nor the exception. *)
Lemma test_sentences_decode (b : Batch)
    (items : list (list Z * list Z * list Z * list Z)) :
  forall i out out' acc,
    (sentences false b i items out acc).1.1 = out /\
    (sentences true b i items out' acc).1.2
    = (sentences false b i items out acc).1.2 /\
    (sentences true b i items out' acc).2
    = (sentences false b i items out acc).2.
Proof.
  induction items as [|[[[pa pl] ta] tl] items IH]; intros i out out' acc;
    [done|].
  cbn [test_sentences].
  destruct (word_tokens b !! i); [|done].
  destruct (pos_tokens b !! i); [|done]. apply IH.
Qed.

Lemma test_batches_decode (batches : list Batch) :
  forall out out' acc,
    (batches_loop false batches out acc).1.1 = out /\
    (batches_loop true batches out' acc).1.2
    = (batches_loop false batches out acc).1.2 /\
    (batches_loop true batches out' acc).2
    = (batches_loop false batches out acc).2.
Proof.
  induction batches as [|b batches IH]; intros out out' acc; [done|].
  cbn [test_batches].
  destruct (test_sentences_decode b (batch_items parser_parse b) 0 out out' acc)
    as (Hout & Hacc & Herr).
  destruct (sentences true b 0 (batch_items parser_parse b) out' acc)
    as [[o1 a1] e1].
  destruct (sentences false b 0 (batch_items parser_parse b) out acc)
    as [[o2 a2] e2].
  cbn [fst snd] in Hout, Hacc, Herr. subst o2 a2 e2.
  destruct e1; [done | apply IH].
Qed.

Lemma zip4_take {A B C D : Type} (a : list A) (b : list B) (c : list C)
    (d : list D) :
  zip4 a b (take (length a) c) (take (length a) d) = zip4 a b c d.
Proof.
  revert b c d. induction a as [|x a IH]; intros [|y b] [|z c] [|w d];
    simpl; try done.
  by rewrite IH.
Qed.

Lemma batch_items_cut (b : Batch) :
  batch_items parser_parse (cut_targets parser_parse b)
  = batch_items parser_parse b.
Proof.
  unfold batch_items, cut_targets, true_arcs, true_labels.
  cbn [word_tokens pos_tokens targets].
  destruct (parser_parse (word_tokens b) (pos_tokens b)) as [arcs labels].
  cbn [fst]. rewrite <- !List.firstn_map. apply zip4_take.
Qed.

End TestLoopFacts.

Section TestLoopTheorems.

Context (parser_parse :
           list (list Z) -> list (list Z) -> list (list Z) * list (list Z))
  (create_ignore_mask : list Z -> list Z -> list bool)
  (evaluate_sentence :
     list Z -> list Z -> list Z -> list Z -> list bool -> Z * Z * Z)
  (get_sentence : list Z -> list string)
  (pos_lookup label_lookup : Z -> string).

Local Abbreviation loop :=
  (test_loop parser_parse create_ignore_mask evaluate_sentence get_sentence
     pos_lookup label_lookup).
Local Abbreviation batches_from :=
  (test_batches parser_parse create_ignore_mask evaluate_sentence get_sentence
     pos_lookup label_lookup).
Local Abbreviation sentences_from :=
  (test_sentences create_ignore_mask evaluate_sentence get_sentence
     pos_lookup label_lookup).
Local Abbreviation score :=
  (evaluate_sample create_ignore_mask evaluate_sentence).
Local Abbreviation samples := (aligned_samples parser_parse).

Lemma test_sentences_batch (decode : bool) (b : Batch) (out : string)
    (acc : Z * Z * Z) :
  (sentences_from decode b 0 (batch_items parser_parse b) out acc).1.2
  = fold_left (accumulate _ score) (samples b) acc /\
  ((sentences_from decode b 0 (batch_items parser_parse b) out acc).2 = None
   <-> indexable parser_parse b) /\
  ((sentences_from decode b 0 (batch_items parser_parse b) out acc).2
   = Some IndexError
   <-> ~ indexable parser_parse b).
Proof.
  destruct (test_sentences_spec create_ignore_mask evaluate_sentence
              get_sentence pos_lookup label_lookup decode b
              (batch_items parser_parse b) 0 out acc) as [Hacc Herr].
  rewrite !drop_0 in Hacc, Herr. split; [exact Hacc|].
  rewrite Herr. unfold indexable. case_decide; split; split; try done.
Qed.

Lemma test_batches_indexable (decode : bool) (batches : list Batch) :
  Forall (indexable parser_parse) batches ->
  forall out acc,
    (batches_from decode batches out acc).2 = None /\
    (batches_from decode batches out acc).1.2
    = fold_left (fun acc batch => fold_left (accumulate _ score) batch acc)
        (map samples batches) acc.
Proof.
  induction 1 as [|b batches Hb _ IH]; intros out acc; [done|].
  cbn [test_batches map fold_left].
  destruct (test_sentences_batch decode b out acc) as (Hacc & Hnone & _).
  apply Hnone in Hb.
  destruct (sentences_from decode b 0 (batch_items parser_parse b) out acc)
    as [[o a] e].
  cbn [fst snd] in Hacc, Hb. subst e a. apply IH.
Qed.

(** X13: when every batch has the word and tag sequences of all the
    sentences that the loop goes through, the loop ends without exception
    and its accumulators are the totals of [test_totals] over the
    sentences of the batches, each scored by the evaluator with the mask
    made from its own words and tags. *)
Theorem test_loop_totals (decode : bool) (batches : list Batch) :
  Forall (indexable parser_parse) batches ->
  (loop decode batches).2 = None /\
  (loop decode batches).1.2 = test_totals _ score (map samples batches).
Proof.
  intros Hidx. unfold test_loop, test_totals.
  by apply test_batches_indexable.
Qed.

(** X14: when a batch lacks the words or the tags of a sentence that has
    predictions and targets, the loop raises [IndexError] at that sentence:
    the sentences before it, in the batch and in the batches before, have
    been added to the accumulators, the batches after it are not looked
    at. *)
Theorem test_loop_index_error (decode : bool) (good : list Batch)
    (bad : Batch) (rest : list Batch) :
  Forall (indexable parser_parse) good ->
  ~ indexable parser_parse bad ->
  (loop decode (good ++ bad :: rest)).2 = Some IndexError /\
  (loop decode (good ++ bad :: rest)).1.2
  = test_totals _ score (map samples (good ++ [bad])).
Proof.
  intros Hgood Hbad. unfold test_loop, test_totals. generalize "".
  generalize (0, 0, 0).
  induction Hgood as [|b good Hb _ IH]; intros acc out.
  - cbn [app test_batches map fold_left].
    destruct (test_sentences_batch decode bad out acc) as (Hacc & _ & Herr).
    apply Herr in Hbad.
    destruct (sentences_from decode bad 0 (batch_items parser_parse bad) out acc)
      as [[o a] e].
    cbn [fst snd] in Hacc, Hbad. by subst e a.
  - cbn [app test_batches map fold_left].
    destruct (test_sentences_batch decode b out acc) as (Hacc & Hnone & _).
    apply Hnone in Hb.
    destruct (sentences_from decode b 0 (batch_items parser_parse b) out acc)
      as [[o a] e].
    cbn [fst snd] in Hacc, Hb. subst e a. apply IH.
Qed.

(** X15: the gold sentences of a batch that the parser gave no predicted
    arcs for are never read and raise nothing: the loop prints and
    accumulates the same, and ends in the same way, on the batches cut down
    to the number of their predictions. *)
Theorem test_loop_cut_targets (decode : bool) (batches : list Batch) :
  loop decode (map (cut_targets parser_parse) batches) = loop decode batches.
Proof.
  unfold test_loop. generalize "". generalize (0, 0, 0).
  induction batches as [|b batches IH]; intros acc out; [done|].
  cbn [map test_batches]. rewrite batch_items_cut.
  rewrite (test_sentences_ext create_ignore_mask evaluate_sentence
             get_sentence pos_lookup label_lookup decode
             (cut_targets parser_parse b) b) by done.
  destruct (sentences_from decode b 0 (batch_items parser_parse b) out acc)
    as [[o a] [e|]]; [done | apply IH].
Qed.

(** X16: [decode] only prints: with and without it the loop ends in the
    same way with the same accumulators, and without it nothing is
    printed. *)
Theorem test_loop_decode (batches : list Batch) :
  (loop false batches).1.1 = "" /\
  (loop true batches).1.2 = (loop false batches).1.2 /\
  (loop true batches).2 = (loop false batches).2.
Proof. unfold test_loop. apply test_batches_decode. Qed.

End TestLoopTheorems.

Lemma test_loop_totals_witness :
  test_loop two_predictions no_mask whole_sentence word_of tag_of tag_of true
    [batch_of_two; batch_of_two]
  = ("5" ++ TAB ++ "1" ++ TAB ++ "2" ++ TAB ++ "1" ++ NL
     ++ "6" ++ TAB ++ "2" ++ TAB ++ "0" ++ TAB ++ "1" ++ NL ++ NL
     ++ "7" ++ TAB ++ "3" ++ TAB ++ "0" ++ TAB ++ "1" ++ NL ++ NL
     ++ "5" ++ TAB ++ "1" ++ TAB ++ "2" ++ TAB ++ "1" ++ NL
     ++ "6" ++ TAB ++ "2" ++ TAB ++ "0" ++ TAB ++ "1" ++ NL ++ NL
     ++ "7" ++ TAB ++ "3" ++ TAB ++ "0" ++ TAB ++ "1" ++ NL ++ NL,
     (4, 2, 4), None) /\
  (test_loop two_predictions no_mask whole_sentence word_of tag_of tag_of true
     [batch_of_two; batch_of_two]).2 = None.
Proof.
  split; [reflexivity|].
  apply (test_loop_totals two_predictions no_mask whole_sentence word_of
           tag_of tag_of true [batch_of_two; batch_of_two]).
  repeat constructor.
Defined.

Lemma test_loop_index_error_witness :
  test_loop two_predictions no_mask whole_sentence word_of tag_of tag_of false
    [batch_of_two; short_batch; batch_of_two]
  = ("", (3, 1, 3), Some IndexError) /\
  (test_loop two_predictions no_mask whole_sentence word_of tag_of tag_of false
     [batch_of_two; short_batch; batch_of_two]).2 = Some IndexError.
Proof.
  split; [reflexivity|].
  apply (test_loop_index_error two_predictions no_mask whole_sentence word_of
           tag_of tag_of false [batch_of_two] short_batch [batch_of_two]).
  - repeat constructor.
  - intros [H _]. vm_compute in H. lia.
Defined.

(** ** The files that [train] saves *)

Lemma length_append (s1 s2 : string) :
  String.length (s1 ++ s2) = (String.length s1 + String.length s2)%nat.
Proof.
  induction s1 as [|c s1 IH]; [done|].
  rewrite append_cons. cbn [String.length]. by rewrite IH.
Qed.

(** Two texts with ends of the same length are equal part by part. *)
Lemma append_inj_length (x : string) : forall y s t,
  String.length s = String.length t ->
  x ++ s = y ++ t -> x = y /\ s = t.
Proof.
  induction x as [|c x IH]; intros [|d y] s t Hlen Heq.
  - done.
  - rewrite append_nil_l, append_cons in Heq. subst s.
    cbn [String.length] in Hlen. rewrite length_append in Hlen. lia.
  - rewrite append_nil_l, append_cons in Heq. subst t.
    cbn [String.length] in Hlen. rewrite length_append in Hlen. lia.
  - rewrite !append_cons in Heq. injection Heq as -> Heq.
    destruct (IH y s t Hlen Heq) as [-> ->]. done.
Qed.

Lemma append_inj_l (p x y : string) : p ++ x = p ++ y -> x = y.
Proof.
  induction p as [|c p IH]; [done|].
  rewrite !append_cons. intros [= H]. by apply IH.
Qed.

Lemma starts_with_sep_prefix (date rest1 rest2 : string) :
  starts_with_sep (date ++ "-" ++ rest1)
  = starts_with_sep (date ++ "-" ++ rest2).
Proof. by destruct date. Qed.

(** The names that have the same directory and the same start are joined
    in the same way. *)
Lemma path_join_inj (save_to date rest1 rest2 : string) :
  path_join save_to (date ++ "-" ++ rest1)
  = path_join save_to (date ++ "-" ++ rest2) ->
  rest1 = rest2.
Proof.
  unfold path_join. rewrite (starts_with_sep_prefix date rest1 rest2).
  destruct (starts_with_sep (date ++ "-" ++ rest2)).
  - intros H. by apply append_inj_l, append_inj_l in H.
  - destruct (String.eqb save_to "" || ends_with_sep save_to); intros H.
    + by do 3 apply append_inj_l in H.
    + by do 4 apply append_inj_l in H.
Qed.

Lemma py_str_int_inj (n m : Z) : py_str (VInt n) = py_str (VInt m) -> n = m.
Proof.
  intros H. pose proof (parse_int_value_int n) as Hn.
  rewrite H, parse_int_value_int in Hn. by injection Hn.
Qed.

(** X17: the models of two different epochs are saved in two different
    files, and never in the file of the context, whatever the directory,
    the date and the access id. *)
Theorem model_files_distinct (save_to date accessid : string)
    (epoch1 epoch2 : Z) :
  (model_file save_to date accessid epoch1
   = model_file save_to date accessid epoch2 -> epoch1 = epoch2) /\
  model_file save_to date accessid epoch1
  <> context_file save_to date accessid.
Proof.
  unfold model_file, context_file. split.
  - intros H%path_join_inj. apply append_inj_l, append_inj_l in H.
    apply (append_inj_length _ _ ".mdl" ".mdl") in H as [H _]; [|done].
    by apply py_str_int_inj.
  - intros H%path_join_inj. apply append_inj_l in H.
    change ".context" with ("." ++ "con" ++ "text") in H.
    apply append_inj_l in H.
    apply (append_inj_length _ _ ".mdl" "text") in H as [_ H]; [|done].
    discriminate H.
Qed.

(** ** Writing a corpus, then reading it back *)



Lemma typed_has_id (t : Token) : typed_token t = true -> has_id t.
Proof. intros (n & Hn & _)%typed_token_id. by eexists. Qed.






(** *** After one round trip a sentence is stable *)







